(** * A-share daily-bar downloader: the worker [download_one] and the
      aggregation in [main] of downloader_cn.py

    The development embeds the downloader as Rocq functions over an explicit
    world (file system, clock, remote service, disk behaviour, random
    source).  Every effect of the Python code is a step of a small
    state-exception-trace monad; Python exceptions are values of [result],
    so that "no exception escapes" is a statement to prove and not a
    property of the typing.

    Conventions.
    - Python [str] is modelled by [string], read as the UTF-8 encoding of the
      text.  The only characters the code inspects are '&', '6' and '/',
      which are ASCII and never occur inside a multi-byte UTF-8 sequence, so
      splitting and prefix tests agree with the code-point level.
    - [time.time()] and modification times are binary64 floats, as in
      CPython: the primitive floats of Rocq.
    - pandas and yfinance are not part of the repository.  A reply of the
      remote service and the behaviour of the disk under [to_csv] are
      scripted in the world, one entry per call.
    - The four threads of the pool are not modelled: the calls of the
      workers run one after the other on the world, and the order in which
      the futures complete is a parameter of [main]. *)

From Stdlib Require Import Floats.PrimFloat Numbers.Cyclic.Int63.Uint63 ZArith Ascii.
From stdpp Require Import gmap strings list fin_maps.

Local Open Scope Z_scope.
Local Open Scope nat_scope.

(* 0.7 is read as the closest binary64 value, as Python reads it. *)
Set Warnings "-inexact-float".

(** ** Python strings *)

Module Str.

(** [s.split(sep, maxsplit)] for a one-character separator.  [budget] is
    the number of splits still allowed; [None] is Python's default -1. *)
Fixpoint split (sep : ascii) (budget : option nat) (s : string) : list string :=
  match s with
  | EmptyString => [EmptyString]
  | String c rest =>
      let cut :=
        Ascii.eqb c sep && match budget with Some 0 => false | _ => true end in
      if cut then
        EmptyString :: split sep (pred <$> budget) rest
      else
        match split sep budget rest with
        | field :: fields => String c field :: fields
        | [] => [String c EmptyString]
        end
  end.

(** [c in s] *)
Fixpoint mem (c : ascii) (s : string) : bool :=
  match s with
  | EmptyString => false
  | String d rest => Ascii.eqb d c || mem c rest
  end.

(** [s.startswith(p)] *)
Definition startswith (p s : string) : bool := String.prefix p s.

(** [s.endswith(p)] *)
Definition endswith (p s : string) : bool :=
  let n := String.length s in
  let k := String.length p in
  (k <=? n) && String.eqb (String.substring (n - k) k s) p.

(** [c * n] *)
Fixpoint replicate (n : nat) (c : ascii) : string :=
  match n with
  | 0 => EmptyString
  | S k => String c (replicate k c)
  end.

End Str.

(** ** posixpath.join *)

Definition os_sep : string := "/".

Definition join_step (path b : string) : string :=
  if Str.startswith os_sep b || String.eqb path "" then b
  else if Str.endswith os_sep path then path +:+ b
  else path +:+ os_sep +:+ b.

Definition os_path_join (a : string) (p : list string) : string :=
  fold_left join_step p a.

(** ** Exceptions and results *)

Inductive exn : Set :=
| ValueError      (* unpacking a list of the wrong length *)
| IndexError
| KeyError
| OSError         (* file system failures *)
| RemoteError     (* anything raised by yfinance *)
| DataError.      (* anything raised while normalising the frame *)

Inductive result (A : Type) : Type :=
| Ok (a : A)
| Exc (e : exn).
Arguments Ok {A} a.
Arguments Exc {A} e.

(** ** The world *)

Record file := File { mtime : float; content : string }.

(** [os.path.getsize] *)
Definition size_of (f : file) : nat := String.length (content f).

(** What [tk.history] gives back.  Of a frame the model keeps what the code
    depends on: the [empty] property, whether lines 106-109 (reset_index,
    lower-casing, date conversion) run through, and the text [to_csv]
    emits for the normalised frame. *)
Record DataFrame := Frame_ { empty : bool; tidy : bool; csv : string }.

Inductive reply :=
| Fails                           (* Ticker or history raises *)
| NoFrame                         (* history returns None *)
| Frame (df : DataFrame).

(** What the disk does on one [to_csv(out_path)]: the file is opened for
    writing at [out_path] itself and filled in place. *)
Inductive write_reply :=
| Written                         (* all bytes written, file closed *)
| Refused                         (* open fails, nothing touched *)
| Torn (n : nat).                 (* fails after [n] bytes reached the file *)

Inductive event :=
| Jitter (d : float)              (* line 100 *)
| Fetch (symbol : string)         (* lines 102-103 *)
| ToCsv (path : string)           (* line 111 *)
| Caught (attempt : nat)          (* line 117 entered *)
| Backoff (d : Z).                (* line 120 *)

Record world := World {
  fs : gmap string file;
  clock : float;
  remote : list reply;            (* replies to the coming history calls *)
  disk : list write_reply;        (* behaviour of the coming to_csv calls *)
  unit_draws : list float;        (* coming values of random.random() *)
  int_draws : list Z              (* coming raw integer draws *)
}.

(** ** The monad of the worker: state, exceptions, trace *)

Definition M (A : Type) : Type := world -> result A * world * list event.

Definition ret {A} (a : A) : M A := fun w => (Ok a, w, []).

Definition bind {A B} (m : M A) (k : A -> M B) : M B :=
  fun w =>
    match m w with
    | (Ok a, w1, t1) => let '(r, w2, t2) := k a w1 in (r, w2, t1 ++ t2)
    | (Exc e, w1, t1) => (Exc e, w1, t1)
    end.

Definition raise {A} (e : exn) : M A := fun w => (Exc e, w, []).

(** [try: m  except Exception: h].  What [m] did before raising stays done. *)
Definition try_except {A} (m : M A) (h : exn -> M A) : M A :=
  fun w =>
    match m w with
    | (Ok a, w1, t1) => (Ok a, w1, t1)
    | (Exc e, w1, t1) => let '(r, w2, t2) := h e w1 in (r, w2, t1 ++ t2)
    end.

Definition emit (ev : event) : M unit := fun w => (Ok tt, w, [ev]).
Definition get : M world := fun w => (Ok w, w, []).
Definition put (w : world) : M unit := fun _ => (Ok tt, w, []).

Declare Scope py_scope.
Delimit Scope py_scope with py.
Notation "x <~ m ;; k" := (bind m (fun x => k))
  (at level 100, m at next level, right associativity) : py_scope.
Notation "m ;;; k" := (bind m (fun _ => k))
  (at level 100, right associativity) : py_scope.
Local Open Scope py_scope.

(** ** Operations of the environment *)

Definition set_fs (g : gmap string file) (w : world) : world :=
  World g (clock w) (remote w) (disk w) (unit_draws w) (int_draws w).
Definition set_clock (c : float) (w : world) : world :=
  World (fs w) c (remote w) (disk w) (unit_draws w) (int_draws w).
Definition set_remote (l : list reply) (w : world) : world :=
  World (fs w) (clock w) l (disk w) (unit_draws w) (int_draws w).
Definition set_disk (l : list write_reply) (w : world) : world :=
  World (fs w) (clock w) (remote w) l (unit_draws w) (int_draws w).
Definition set_unit_draws (l : list float) (w : world) : world :=
  World (fs w) (clock w) (remote w) (disk w) l (int_draws w).
Definition set_int_draws (l : list Z) (w : world) : world :=
  World (fs w) (clock w) (remote w) (disk w) (unit_draws w) l.

(** [time.time()] *)
Definition time_time : M float := w <~ get ;; ret (clock w).

(** [random.uniform(a, b)]: a + (b - a) * random() *)
Definition random_uniform (a b : float) : M float :=
  w <~ get ;;
  put (set_unit_draws (tl (unit_draws w)) w) ;;;
  ret (a + (b - a) * hd 0%float (unit_draws w))%float.

(** [random.randint(a, b)]: a + (a draw below b - a + 1) *)
Definition random_randint (a b : Z) : M Z :=
  w <~ get ;;
  put (set_int_draws (tl (int_draws w)) w) ;;;
  ret (a + hd 0%Z (int_draws w) mod (b - a + 1))%Z.

Definition float_of_Z (z : Z) : float := PrimFloat.of_uint63 (Uint63.of_Z z).

(** [time.sleep(d)]: the clock moves on by [d]. *)
Definition advance (d : float) : M unit :=
  w <~ get ;; put (set_clock (clock w + d)%float w).

(** [os.path.exists], [os.path.getmtime], [os.path.getsize] *)
Definition os_path_exists (p : string) : M bool :=
  w <~ get ;;
  match fs w !! p with
  | Some _ => ret true
  | None => ret false
  end.

Definition os_path_getmtime (p : string) : M float :=
  w <~ get ;;
  match fs w !! p with
  | Some f => ret (mtime f)
  | None => raise OSError
  end.

Definition os_path_getsize (p : string) : M nat :=
  w <~ get ;;
  match fs w !! p with
  | Some f => ret (size_of f)
  | None => raise OSError
  end.

(** [yf.Ticker(symbol).history(period="2y", timeout=25)] *)
Definition history (symbol : string) : M (option DataFrame) :=
  emit (Fetch symbol) ;;;
  w <~ get ;;
  put (set_remote (tl (remote w)) w) ;;;
  match hd Fails (remote w) with
  | Fails => raise RemoteError
  | NoFrame => ret None
  | Frame df => ret (Some df)
  end.

(** Lines 106-109. *)
Definition normalise (df : DataFrame) : M DataFrame :=
  if tidy df then ret df else raise DataError.

(** The byte-order mark of the utf-8-sig encoding. *)
Definition BOM : string :=
  String (ascii_of_nat 239) (String (ascii_of_nat 187) (String (ascii_of_nat 191) EmptyString)).

Definition encoded (df : DataFrame) : string := BOM +:+ csv df.

(** [df.to_csv(path, index=False, encoding='utf-8-sig')] *)
Definition to_csv (df : DataFrame) (path : string) : M unit :=
  emit (ToCsv path) ;;;
  w <~ get ;;
  put (set_disk (tl (disk w)) w) ;;;
  match hd Written (disk w) with
  | Written =>
      w <~ get ;;
      put (set_fs (<[path := File (clock w) (encoded df)]> (fs w)) w)
  | Refused => raise OSError
  | Torn n =>
      w <~ get ;;
      put (set_fs (<[path := File (clock w) (String.substring 0 n (encoded df))]> (fs w)) w) ;;;
      raise OSError
  end.

(** ** downloader_cn.py *)

(** The dictionary a worker returns: {"status": ..., "code": ...}. *)
Record outcome := Outcome { status : string; code : string }.

Definition MARKET_CODE : string := "cn-share".
Definition DATA_SUBDIR : string := "dayK".
Definition DATA_EXPIRY_SECONDS : float := 3600%float.
Definition max_retries : nat := 3.

(** [a, b = l] *)
Definition unpack2 (l : list string) : M (string * string) :=
  match l with
  | [a; b] => ret (a, b)
  | _ => raise ValueError
  end.

(** [l[0]] *)
Definition item0 (l : list string) : M string :=
  match l with
  | a :: _ => ret a
  | [] => raise IndexError
  end.

(** [for attempt in range: body], where the body may [return]:
    [Some o] leaves the function with [o], [None] goes on. *)
Fixpoint for_range {A} (body : nat -> M (option A)) (range : list nat) : M (option A) :=
  match range with
  | [] => ret None
  | attempt :: rest =>
      r <~ body attempt ;;
      match r with
      | Some o => ret (Some o)
      | None => for_range body rest
      end
  end.

Section Downloader.

(** The directory of the script, [os.path.dirname(os.path.abspath(__file__))]. *)
Variable BASE_DIR : string.

Definition DATA_DIR : string :=
  os_path_join BASE_DIR ["data"; MARKET_CODE; DATA_SUBDIR].

Definition symbol_of (code : string) : string :=
  if Str.startswith "6" code then code +:+ ".SS" else code +:+ ".SZ".

Definition out_path_of (code name : string) : string :=
  os_path_join DATA_DIR [code +:+ "_" +:+ name +:+ ".csv"].

(** Lines 90-94: [Some o] when the function returns at line 94. *)
Definition freshness_check (out_path code : string) : M (option outcome) :=
  present <~ os_path_exists out_path ;;
  if present : bool then
    now <~ time_time ;;
    modified <~ os_path_getmtime out_path ;;
    let file_age := (now - modified)%float in
    if PrimFloat.ltb file_age DATA_EXPIRY_SECONDS then
      size <~ os_path_getsize out_path ;;
      if 1000 <? size then ret (Some (Outcome "exists" code)) else ret None
    else ret None
  else ret None.

(** Lines 98-120: one turn of the retry loop. *)
Definition attempt_body (symbol out_path code : string) (attempt : nat)
  : M (option outcome) :=
  try_except
    (d <~ random_uniform 0.7 1.5 ;;
     emit (Jitter d) ;;;
     advance d ;;;
     hist <~ history symbol ;;
     match hist with
     | Some df =>
         if negb (empty df) then
           df' <~ normalise df ;;
           to_csv df' out_path ;;;
           ret (Some (Outcome "success" code))
         else if attempt =? max_retries - 1 then ret (Some (Outcome "empty" code))
         else ret None
     | None =>
         if attempt =? max_retries - 1 then ret (Some (Outcome "empty" code))
         else ret None
     end)
    (fun _ =>
       emit (Caught attempt) ;;;
       if attempt =? max_retries - 1 then ret (Some (Outcome "error" code))
       else
         z <~ random_randint 5 12 ;;
         emit (Backoff z) ;;;
         advance (float_of_Z z) ;;;
         ret None).

(** Lines 84-124.  Inside the outer [try], [inl o] is a [return o] and
    [inr code] is the loop running out with the local [code] bound. *)
Definition download_one (item : string) : M outcome :=
  r <~ try_except
         (fields <~ unpack2 (Str.split "&" (Some 1) item) ;;
          let '(code, name) := fields in
          let symbol := symbol_of code in
          let out_path := out_path_of code name in
          hit <~ freshness_check out_path code ;;
          match hit with
          | Some o => ret (inl o)
          | None =>
              r <~ for_range (attempt_body symbol out_path code) (seq 0 max_retries) ;;
              match r with
              | Some o => ret (inl o)
              | None => ret (inr code)
              end
          end)
         (fun _ =>
            first <~ item0 (Str.split "&" None item) ;;
            ret (inl (Outcome "error" first))) ;;
  match r with
  | inl o => ret o
  | inr code => ret (Outcome "error" code)
  end.

(** *** The pool and the aggregation of [main] *)

(** [executor.submit(download_one, it)]: the call runs in a worker and its
    result, value or exception, is kept in the future. *)
Definition submit (item : string) : M (result outcome) :=
  fun w => let '(r, w', t) := download_one item w in (Ok r, w', t).

Fixpoint submit_all (items : list string) : M (list (result outcome)) :=
  match items with
  | [] => ret []
  | it :: rest =>
      f <~ submit it ;;
      fs <~ submit_all rest ;;
      ret (f :: fs)
  end.

(** [as_completed(futures)]: the futures in the order they finish, given
    by the positions [order] in submission order. *)
Definition as_completed {A} (order : list nat) (futures : list A) : list A :=
  omap (fun i => futures !! i) order.

(** [f.result()] *)
Definition future_result {A} (f : result A) : M A :=
  match f with
  | Ok a => ret a
  | Exc e => raise e
  end.

(** [stats[k]] and [stats[k] += 1] *)
Definition dict_get (stats : gmap string nat) (k : string) : M nat :=
  match stats !! k with
  | Some v => ret v
  | None => raise KeyError
  end.

Definition dict_incr (stats : gmap string nat) (k : string) : M (gmap string nat) :=
  v <~ dict_get stats k ;;
  ret (<[k := v + 1]> stats).

Definition initial_stats : gmap string nat :=
  <["success" := 0]> (<["exists" := 0]> (<["empty" := 0]> (<["error" := 0]> ∅))).

(** Lines 139-142.  A worker's dictionary always has the key "status", so
    [res.get("status", "error")] is its status. *)
Fixpoint tally (stats : gmap string nat) (done : list (result outcome))
  : M (gmap string nat) :=
  match done with
  | [] => ret stats
  | f :: rest =>
      res <~ future_result f ;;
      stats' <~ dict_incr stats (status res) ;;
      tally stats' rest
  end.

Record download_stats := DownloadStats { total : nat; success : nat; fail : nat }.

(** Lines 145-153. *)
Definition report (n_items : nat) (stats : gmap string nat) : M download_stats :=
  s <~ dict_get stats "success" ;;
  x <~ dict_get stats "exists" ;;
  let effective_success := s + x in
  e <~ dict_get stats "error" ;;
  m <~ dict_get stats "empty" ;;
  let fail_count := e + m in
  ret (DownloadStats n_items effective_success fail_count).

(** Lines 133-158, for the list [items] that [get_cn_list] returned. *)
Definition main (order : list nat) (items : list string) : M download_stats :=
  futures <~ submit_all items ;;
  stats <~ tally initial_stats (as_completed order futures) ;;
  report (length items) stats.

End Downloader.

(** ** The runs of the worker, as relations

    What one turn of the retry loop, the loop and the worker can do, read
    off the functions above; the lemmas of the next part show that the
    functions always land in these relations. *)

(** A reply without rows: [None] or an empty frame. *)
Definition no_rows (r : reply) : bool :=
  match r with
  | Fails => false
  | NoFrame => true
  | Frame df => empty df
  end.

(** What a turn that raised did to the disk. *)
Inductive disk_effect (p : string) (w w' : world) : list event -> Prop :=
| effect_none :
    fs w' = fs w -> disk w' = disk w ->
    disk_effect p w w' []
| effect_refused :
    hd Written (disk w) = Refused ->
    fs w' = fs w -> disk w' = tl (disk w) ->
    disk_effect p w w' [ToCsv p]
| effect_torn n df t :
    hd Written (disk w) = Torn n ->
    hd Fails (remote w) = Frame df ->
    fs w' = <[p := File t (String.substring 0 n (encoded df))]> (fs w) ->
    disk w' = tl (disk w) ->
    disk_effect p w w' [ToCsv p].

Inductive attempt_step (s p c : string) (n : nat) (w : world)
  : option outcome -> world -> list event -> Prop :=
| step_stored d df t w' :
    hd Fails (remote w) = Frame df -> empty df = false ->
    hd Written (disk w) = Written ->
    fs w' = <[p := File t (encoded df)]> (fs w) ->
    remote w' = tl (remote w) -> disk w' = tl (disk w) ->
    attempt_step s p c n w (Some (Outcome "success" c)) w'
      [Jitter d; Fetch s; ToCsv p]
| step_no_rows d w' :
    no_rows (hd Fails (remote w)) = true ->
    fs w' = fs w ->
    remote w' = tl (remote w) -> disk w' = disk w ->
    attempt_step s p c n w
      (if n =? max_retries - 1 then Some (Outcome "empty" c) else None) w'
      [Jitter d; Fetch s]
| step_raised_last d ev w' :
    n = max_retries - 1 ->
    disk_effect p w w' ev ->
    remote w' = tl (remote w) ->
    attempt_step s p c n w (Some (Outcome "error" c)) w'
      ([Jitter d; Fetch s] ++ ev ++ [Caught n])
| step_raised d ev z w' :
    n <> max_retries - 1 ->
    disk_effect p w w' ev ->
    remote w' = tl (remote w) ->
    attempt_step s p c n w None w'
      ([Jitter d; Fetch s] ++ ev ++ [Caught n; Backoff z]).

Inductive loop_run (s p c : string)
  : list nat -> world -> option outcome -> world -> list event -> Prop :=
| loop_out w :
    loop_run s p c [] w None w []
| loop_return n rest w o w' t :
    attempt_step s p c n w (Some o) w' t ->
    loop_run s p c (n :: rest) w (Some o) w' t
| loop_next n rest w w1 t1 r w2 t2 :
    attempt_step s p c n w None w1 t1 ->
    loop_run s p c rest w1 r w2 t2 ->
    loop_run s p c (n :: rest) w r w2 (t1 ++ t2).

(** Line 93, on the metadata of the artifact. *)
Definition fresh (now : float) (f : file) : bool :=
  PrimFloat.ltb (now - mtime f)%float DATA_EXPIRY_SECONDS && (1000 <? size_of f).

Definition is_fresh (w : world) (p : string) : bool :=
  match fs w !! p with
  | Some f => fresh (clock w) f
  | None => false
  end.

(** The three ways through [download_one]. *)
Inductive run_one (base item : string) (w : world)
  : outcome -> world -> list event -> Prop :=
| one_malformed :
    Str.mem "&" item = false ->
    run_one base item w (Outcome "error" item) w []
| one_fresh c name :
    Str.split "&" (Some 1) item = [c; name] ->
    is_fresh w (out_path_of base c name) = true ->
    run_one base item w (Outcome "exists" c) w []
| one_loop c name r w' t :
    Str.split "&" (Some 1) item = [c; name] ->
    is_fresh w (out_path_of base c name) = false ->
    loop_run (symbol_of c) (out_path_of base c name) c (seq 0 max_retries) w r w' t ->
    run_one base item w (default (Outcome "error" c) r) w' t.

(** The four tags of an Outcome. *)
Definition TAGS : list string := ["success"; "exists"; "empty"; "error"].

(** [c] is what stands before the first '&' of [item], or the whole of
    [item] when it holds none. *)
Definition code_of_item (item c : string) : Prop :=
  Str.mem "&" c = false /\ (item = c \/ exists name, item = c +:+ String "&" name).

(** ** Sample worlds *)

(** An installation directory and a world with no artifact on disk, a
    remote service that is down and a disk that works. *)
Definition app_dir : string := "/srv/app".

Definition blank_world : world :=
  World ∅ 1762214400%float [] [] [] [].

(** An Outcome fit for [item]: one of the four tags, and the code of [item]. *)
Definition sound_outcome (item : string) (o : outcome) : Prop :=
  status o ∈ TAGS /\ code_of_item item (code o).

(** An artifact written 10 minutes before the clock of [blank_world], of
    5000 bytes, and one written two hours before it. *)
Definition moutai_path : string :=
  "/srv/app/data/cn-share/dayK/600519_Kweichow Moutai.csv".

Definition recent_file : file :=
  File 1762213800%float (Str.replicate 5000 "x").

Definition old_file : file :=
  File 1762207200%float (Str.replicate 5000 "x").

Definition cached_world : world :=
  World {[moutai_path := recent_file]} 1762214400%float [] [] [] [].

Definition stale_world : world :=
  World {[moutai_path := old_file]} 1762214400%float [] [] [] [].

(** A remote service that answers the next call with two daily bars. *)
Definition two_bars : DataFrame :=
  Frame_ false true "date,open,high,low,close,volume
2025-11-03,10.1,10.4,10.0,10.3,120000
2025-11-04,10.3,10.6,10.2,10.5,130000
".

Definition serving_world : world :=
  World ∅ 1762214400%float [Frame two_bars] [] [] [].

(** ** The pace of the retry loop *)

Definition is_backoff (e : event) : bool :=
  match e with Backoff _ => true | _ => false end.

Definition is_caught (e : event) : bool :=
  match e with Caught _ => true | _ => false end.

Fixpoint count (f : event -> bool) (t : list event) : nat :=
  match t with
  | [] => 0
  | e :: rest => (if f e then 1 else 0) + count f rest
  end.

(** A trace in which every backoff sleep stands right after the [except]
    of a turn that is not the last, and right before the jitter of the
    next turn. *)
Inductive paced : list event -> Prop :=
| paced_nil : paced []
| paced_backoff n z d t :
    n < max_retries - 1 ->
    paced (Jitter d :: t) ->
    paced (Caught n :: Backoff z :: Jitter d :: t)
| paced_other e t :
    is_backoff e = false ->
    paced t ->
    paced (e :: t).

(** ** Writes that fail partway *)

Definition tears (r : write_reply) : bool :=
  match r with Torn _ => true | _ => false end.

(** Where the artifact path stands after a run without success: as before,
    or holding the first [k] bytes of the encoding of a frame that the
    remote service returned. *)
Definition as_before_or_truncated (p : string) (w w' : world) : Prop :=
  fs w' !! p = fs w !! p
  \/ exists k df mt,
      Frame df ∈ remote w
      /\ fs w' !! p = Some (File mt (String.substring 0 k (encoded df))).

(** The stale artifact of [stale_world], a remote service that returns two
    bars once, and a disk that fails 10 bytes into the write. *)
Definition tearing_world : world :=
  World {[moutai_path := old_file]} 1762214400%float
    [Frame two_bars] [Torn 10] [] [].

(** No artifact, a remote service that returns a frame of 1500 bytes and then
    nothing twice, and a disk that fails 1200 bytes into the write. *)
Definition long_frame : DataFrame := Frame_ false true (Str.replicate 1500 "7").

Definition vanke_path : string := "/srv/app/data/cn-share/dayK/000002_Vanke.csv".

Definition half_written_world : world :=
  World ∅ 1762214400%float [Frame long_frame; NoFrame; NoFrame] [Torn 1200] [] [].

(** No artifact and a remote service without rows for the symbol. *)
Definition rowless_world : world :=
  World ∅ 1762214400%float [NoFrame; Frame (Frame_ true true ""); NoFrame] [] [] [].

(** ** Counting Outcomes *)

(** The number of Outcomes of [outs] tagged [k]. *)
Fixpoint count_tag (k : string) (outs : list outcome) : nat :=
  match outs with
  | [] => 0
  | o :: rest => (if decide (status o = k) then 1 else 0) + count_tag k rest
  end.

(** Lines 133-153 on the results in the order of their arrival. *)
Definition aggregate (n_items : nat) (done : list (result outcome)) : M download_stats :=
  stats <~ tally initial_stats done ;;
  report n_items stats.

(** Three Outcomes as three workers may return them. *)
Definition three_outcomes : list outcome :=
  [Outcome "success" "600519"; Outcome "error" "000001"; Outcome "exists" "300750"].

(** ** The list of symbols: [log], [ensure_pkg], [get_cn_list]

    The list is acquired on a host of its own: the cache file of the list
    and what a read of it raises when it does not load, the clock, the
    packages Python can import, what the import of the others raises, the
    packages pip can install and what starting pip raises, the two tables of
    the EM interface and the behaviour of the disk under [json.dump].
    Strings are counted in code points, as Python counts them. *)

Module Lister.

(** [len(s)] of a string held as UTF-8: the bytes that do not continue a
    character. *)
Definition continues (c : ascii) : bool :=
  (128 <=? nat_of_ascii c) && (nat_of_ascii c <? 192).

Fixpoint len (s : string) : nat :=
  match s with
  | EmptyString => 0
  | String c rest => (if continues c then 0 else 1) + len rest
  end.

(** [s.zfill(width)]: zeros on the left up to [width] characters, behind a
    leading sign if there is one. *)
Definition zfill (width : nat) (s : string) : string :=
  if width <=? len s then s
  else
    let zeros := Str.replicate (width - len s) "0" in
    match s with
    | String c rest =>
        if Ascii.eqb c "+" || Ascii.eqb c "-" then String c (zeros +:+ rest)
        else zeros +:+ s
    | EmptyString => zeros
    end.

(** What [json.load] can return. *)
#[local] Set Warnings "-register-all".
Inductive json :=
| JNull
| JBool (b : bool)
| JNum (z : Z)
| JReal (x : float)
| JStr (s : string)
| JArr (l : list json)
| JObj (l : list (string * json)).

Inductive error :=
| ImportError         (* with its subclass ModuleNotFoundError *)
| JSONDecodeError
| UnicodeDecodeError
| ValueError
| TypeError
| NetworkError        (* anything raised between lines 57 and 66 *)
| IOError             (* OSError and its subclasses *)
| OtherError (name : string).

#[export] Instance error_eq_dec : EqDecision error.
Proof. solve_decision. Defined.

Inductive answer (A : Type) : Type :=
| Returned (a : A)
| Raised (e : error).
Arguments Returned {A} a.
Arguments Raised {A} e.

(** The texts of the calls of [log], without the time of day. *)
Inductive message :=
| Installing (pkg : string)       (* line 33 *)
| CacheLoaded (n : nat)           (* line 50 *)
| TryingEM                        (* line 55 *)
| Fetched (n : nat)               (* line 71 *)
| EMFailed (e : error).           (* line 74 *)

Inductive event :=
| Log (m : message)
| Pip (pkg : string)              (* line 34 *)
| Em (table : string)             (* lines 57 and 58 *)
| Dump.                           (* lines 69-70 *)

(** The cache file: its modification time and what [json.load] makes of it,
    [None] when it cannot be opened, read, decoded or parsed. *)
Record cache_file := Cache { written_at : float; doc : option json }.

(** What becomes of [json.dump].  A dump that fails partway leaves a proper
    prefix of the text in the file; [unreadable_as] is what a later read of
    that prefix raises: JSONDecodeError, or UnicodeDecodeError when the cut
    falls inside a character. *)
Inductive dump_reply :=
| Dumped                          (* the list is in the file *)
| DumpDenied                      (* open fails, the file is as before *)
| DumpCut (unreadable_as : error). (* open truncates, the dump fails partway *)

Record host := Host {
  cache : option cache_file;
  now : float;
  installed : gset string;        (* the packages that import *)
  pip_index : gset string;        (* the packages pip can install *)
  em_sh : option (list (string * string));   (* code and name of each row *)
  em_sz : option (list (string * string));
  dump : dump_reply;
  (* what the import of a package that does not import raises when it is
     not ImportError: an exception of the package's own code *)
  import_fault : gmap string error;
  (* what [subprocess.run] raises when the interpreter cannot be started *)
  pip_spawn : option error;
  (* what [open] and [json.load] raise on a cache file without a [doc]:
     OSError, UnicodeDecodeError, JSONDecodeError *)
  load_raises : error
}.

Definition L (A : Type) : Type := host -> answer A * host * list event.

Definition ret {A} (a : A) : L A := fun h => (Returned a, h, []).

Definition bind {A B} (m : L A) (k : A -> L B) : L B :=
  fun h =>
    match m h with
    | (Returned a, h1, t1) => let '(r, h2, t2) := k a h1 in (r, h2, t1 ++ t2)
    | (Raised e, h1, t1) => (Raised e, h1, t1)
    end.

Definition raise {A} (e : error) : L A := fun h => (Raised e, h, []).

Definition try_except {A} (m : L A) (handler : error -> L A) : L A :=
  fun h =>
    match m h with
    | (Returned a, h1, t1) => (Returned a, h1, t1)
    | (Raised e, h1, t1) => let '(r, h2, t2) := handler e h1 in (r, h2, t1 ++ t2)
    end.

Definition get : L host := fun h => (Returned h, h, []).
Definition put (h : host) : L unit := fun _ => (Returned tt, h, []).
Definition emit (e : event) : L unit := fun h => (Returned tt, h, [e]).

Declare Scope lister_scope.
Delimit Scope lister_scope with lister.
Notation "x <- m ;; k" := (bind m (fun x => k))
  (at level 100, m at next level, right associativity) : lister_scope.
Notation "m ;;; k" := (bind m (fun _ => k))
  (at level 100, right associativity) : lister_scope.
Local Open Scope lister_scope.



(** What the import of a package that does not import raises. *)
Definition import_error (pkg : string) (h : host) : error :=
  default ImportError (import_fault h !! pkg).

(** [__import__(pkg)] and [import pkg]: ValueError on the empty name;
    otherwise the package imports, or the import raises ImportError or
    what the package's own code raises. *)
Definition import (pkg : string) : L unit :=
  h <- get ;;
  if decide (pkg = "") then raise ValueError
  else if decide (pkg ∈ installed h) then ret tt
  else raise (import_error pkg h).













Definition valid_prefixes : list string :=
  ["000"; "001"; "002"; "003"; "300"; "301"; "600"; "601"; "603"; "605"; "688"].

(** [s.startswith(prefixes)] for a tuple of prefixes. *)
Definition startswith_any (prefixes : list string) (s : string) : bool :=
  existsb (fun p => Str.startswith p s) prefixes.

(** Lines 61-66 on the rows of the two tables. *)
Definition em_items (rows : list (string * string)) : list string :=
  (fun row => row.1 +:+ "&" +:+ row.2)
    <$> List.filter (fun row => startswith_any valid_prefixes row.1)
          ((fun row => (zfill 6 row.1, row.2)) <$> rows).


Section Calendar.

(** The local calendar day of a timestamp,
    [datetime.fromtimestamp(t).date()]. *)
Variable date_of : float -> Z.





End Calendar.



End Lister.

(** ** More on the events of a run *)

Definition is_fetch (e : event) : bool :=
  match e with Fetch _ => true | _ => false end.

Definition is_jitter (e : event) : bool :=
  match e with Jitter _ => true | _ => false end.

Definition is_to_csv (e : event) : bool :=
  match e with ToCsv _ => true | _ => false end.

(** A trace in which the jitter sleeps and the fetches come in pairs: a
    jitter sleep, then at once the fetch it protects. *)
Inductive jittered : list event -> Prop :=
| jittered_nil : jittered []
| jittered_fetch d s t :
    jittered t ->
    jittered (Jitter d :: Fetch s :: t)
| jittered_other e t :
    is_jitter e = false -> is_fetch e = false ->
    jittered t ->
    jittered (e :: t).

(** No artifact, and a remote service that has no rows, then raises twice. *)
Definition moody_world : world :=
  World ∅ 1762214400%float [NoFrame; Fails; Fails] [] [] [].

(** No artifact, and a remote service that raises, then has no rows, then
    returns two bars. *)
Definition flaky_world : world :=
  World ∅ 1762214400%float [Fails; NoFrame; Frame two_bars] [] [] [].

(** ** Sample hosts *)

Module Hosts.

Import Lister.













End Hosts.

(** * Properties *)

(** ** Splitting *)

Module StrFacts.

Lemma split_not_nil sep budget s : Str.split sep budget s <> [].
Proof.
  revert budget. induction s as [|c s IH]; intros budget; simpl; [done|].
  destruct (_ && _); [done|].
  destruct (Str.split sep budget s); done.
Qed.

(** Without the separator nothing is split off. *)
Lemma split_absent sep budget s :
  Str.mem sep s = false -> Str.split sep budget s = [s].
Proof.
  revert budget. induction s as [|c s IH]; intros budget H; simpl in *; [done|].
  apply orb_false_iff in H as [Hc Hs].
  rewrite Hc. simpl. by rewrite IH.
Qed.

(** With the budget used up nothing is split off. *)
Lemma split_spent sep s : Str.split sep (Some 0) s = [s].
Proof.
  induction s as [|c s IH]; simpl; [done|].
  rewrite andb_false_r. by rewrite IH.
Qed.

(** One split cuts at the first separator and keeps the rest whole. *)
Lemma split_first sep head rest :
  Str.mem sep head = false ->
  Str.split sep (Some 1) (head +:+ String sep rest) = [head; rest].
Proof.
  induction head as [|c head IH]; intros H; simpl in *.
  - rewrite Ascii.eqb_refl. simpl. by rewrite split_spent.
  - apply orb_false_iff in H as [Hc Hs].
    rewrite Hc. simpl. by rewrite IH.
Qed.

(** A string that holds the separator has a first occurrence of it. *)
Lemma mem_first sep s :
  Str.mem sep s = true ->
  exists head rest, s = head +:+ String sep rest /\ Str.mem sep head = false.
Proof.
  induction s as [|c s IH]; simpl; [done|].
  destruct (Ascii.eqb c sep) eqn:Hc; simpl.
  - intros _. apply Ascii.eqb_eq in Hc as ->. by exists EmptyString, s.
  - intros (head & rest & -> & Hh)%IH.
    exists (String c head), rest. simpl. by rewrite Hc.
Qed.

End StrFacts.

(** ** One turn of the retry loop *)

Local Ltac effect_done :=
  first
    [ solve [eapply effect_none; reflexivity]
    | solve [eapply effect_refused; [eassumption|reflexivity..]]
    | solve [eapply effect_torn; [eassumption|eassumption|reflexivity..]] ].

Local Ltac raised Hn ev :=
  first
    [ apply Nat.eqb_eq in Hn;
      apply (step_raised_last _ _ _ _ _ _ ev); [exact Hn|effect_done|reflexivity]
    | apply Nat.eqb_neq in Hn;
      apply (step_raised _ _ _ _ _ _ ev); [exact Hn|effect_done|reflexivity] ].

Local Ltac rowless Hr Hn :=
  let H := fresh in
  epose proof (step_no_rows _ _ _ _ _ _ _) as H;
  rewrite Hn in H; eapply H; clear H;
  [rewrite Hr; simpl; done|reflexivity..].

Section Attempt.

Variables s p c : string.

(** A turn never raises, and what it does is one of the four steps. *)
Lemma attempt_body_step n w :
  exists r w' t,
    attempt_body s p c n w = (Ok r, w', t) /\ attempt_step s p c n w r w' t.
Proof.
  destruct (hd Fails (remote w)) as [| |df] eqn:Hr;
    [| |destruct (empty df) eqn:He;
        [|destruct (tidy df) eqn:Ht;
           [destruct (hd Written (disk w)) as [| |k] eqn:Hd|]]];
    destruct (n =? max_retries - 1) eqn:Hn;
    unfold attempt_body, try_except, bind, history, normalise, to_csv;
    cbn; rewrite ?Hr; cbn; rewrite ?He, ?Ht; cbn; rewrite ?Hd; cbn;
    change (n =? 2) with (n =? max_retries - 1); rewrite ?Hn; cbn.
  all: eexists _, _, _; split; [reflexivity|].
  all: first
         [ solve [raised Hn (@nil event)]
         | solve [raised Hn [ToCsv p]]
         | solve [rowless Hr Hn]
         | solve [eapply step_stored; [eassumption|eassumption|eassumption|reflexivity..]] ].
Qed.

End Attempt.

(** ** The loop and the worker *)

Lemma for_range_run s p c range w :
  exists r w' t,
    for_range (attempt_body s p c) range w = (Ok r, w', t)
    /\ loop_run s p c range w r w' t.
Proof.
  revert w. induction range as [|n rest IH]; intros w; simpl.
  - eexists _, _, _. split; [reflexivity|constructor].
  - unfold bind.
    destruct (attempt_body_step s p c n w) as (r & w1 & t1 & -> & Hstep).
    destruct r as [o|].
    + eexists _, _, _. split; [reflexivity|].
      rewrite app_nil_r. by constructor.
    + destruct (IH w1) as (r & w2 & t2 & -> & Hrun).
      eexists _, _, _. split; [reflexivity|].
      by econstructor.
Qed.

Lemma freshness_check_eq p c w :
  freshness_check p c w
  = (Ok (if is_fresh w p then Some (Outcome "exists" c) else None), w, []).
Proof.
  unfold freshness_check, is_fresh, fresh, bind, os_path_exists,
    os_path_getmtime, os_path_getsize, time_time.
  cbn -[Nat.ltb]. destruct (fs w !! p) as [f|] eqn:Hf; cbn -[Nat.ltb]; [|done].
  rewrite Hf. cbn -[Nat.ltb].
  destruct (PrimFloat.ltb (clock w - mtime f) DATA_EXPIRY_SECONDS);
    cbn -[Nat.ltb]; [|done].
  rewrite Hf. cbn -[Nat.ltb]. by destruct (1000 <? size_of f).
Qed.

(** The worker never raises, and its run is one of the three of [run_one]. *)
Lemma download_one_run base item w :
  exists o w' t,
    download_one base item w = (Ok o, w', t) /\ run_one base item w o w' t.
Proof.
  unfold download_one.
  destruct (Str.mem "&" item) eqn:Hm.
  - destruct (StrFacts.mem_first _ _ Hm) as (c & name & -> & Hc).
    pose proof (StrFacts.split_first "&" c name Hc) as Hsplit.
    unfold bind at 1. unfold try_except. unfold bind at 1.
    rewrite Hsplit. cbn -[out_path_of symbol_of for_range seq].
    unfold bind at 1. rewrite freshness_check_eq.
    destruct (is_fresh w _) eqn:Hfresh; cbn -[out_path_of symbol_of for_range seq].
    + eexists _, _, _. split; [reflexivity|]. by eapply one_fresh.
    + unfold bind at 1.
      destruct (for_range_run (symbol_of c) (out_path_of base c name) c
                  (seq 0 max_retries) w) as (r & w' & t & -> & Hrun).
      pose proof (one_loop base _ w c name r w' t Hsplit Hfresh Hrun) as Hone.
      destruct r as [o|]; cbn in *; rewrite ?app_nil_r;
        eexists _, _, _; (split; [reflexivity|exact Hone]).
  - unfold bind, try_except.
    rewrite !(StrFacts.split_absent _ _ _ Hm). cbn.
    eexists _, _, _. split; [reflexivity|]. by constructor.
Qed.

(** ** What the worker returns *)

Lemma split_first_inv sep s a b :
  Str.split sep (Some 1) s = [a; b] ->
  s = a +:+ String sep b /\ Str.mem sep a = false.
Proof.
  intros H. destruct (Str.mem sep s) eqn:Hm.
  - destruct (StrFacts.mem_first _ _ Hm) as (h & r & -> & Hh).
    rewrite StrFacts.split_first in H by done. by simplify_eq.
  - rewrite StrFacts.split_absent in H by done. by simplify_eq.
Qed.

Lemma attempt_step_outcome s p c n w o w' t :
  attempt_step s p c n w (Some o) w' t ->
  code o = c /\ status o ∈ ["success"; "empty"; "error"].
Proof.
  inversion 1 as [ | ? ? ? ? ? ? Hif | | ]; subst; simpl.
  - split; [done|set_solver].
  - case_match; simplify_eq. simpl. split; [done|set_solver].
  - split; [done|set_solver].
Qed.

Lemma loop_run_outcome s p c range w o w' t :
  loop_run s p c range w (Some o) w' t ->
  code o = c /\ status o ∈ ["success"; "empty"; "error"].
Proof.
  remember (Some o) as r eqn:Hr. induction 1; simplify_eq.
  - by eapply attempt_step_outcome.
  - auto.
Qed.

Lemma run_one_outcome base item w o w' t :
  run_one base item w o w' t ->
  status o ∈ TAGS /\ code_of_item item (code o).
Proof.
  unfold TAGS, code_of_item. destruct 1 as [Hm|c name Hs Hf|c name r w' t Hs Hf Hrun]; simpl.
  - split; [set_solver|]. split; [done|by left].
  - apply split_first_inv in Hs as [-> Hc].
    split; [set_solver|]. split; [done|]. right. by exists name.
  - apply split_first_inv in Hs as [-> Hc].
    destruct r as [o|]; simpl.
    + apply loop_run_outcome in Hrun as [-> Hst].
      split; [|split; [done|right; by exists name]].
      rewrite !elem_of_cons in Hst. rewrite !elem_of_cons. tauto.
    + split; [set_solver|]. split; [done|]. right. by exists name.
Qed.


Lemma download_one_sound base item w :
  exists o w' t,
    download_one base item w = (Ok o, w', t) /\ sound_outcome item o.
Proof.
  destruct (download_one_run base item w) as (o & w' & t & Heq & Hrun).
  exists o, w', t. split; [done|]. by eapply run_one_outcome.
Qed.

(** Every future of the pool holds a value, one per item. *)
Lemma submit_all_sound base items w :
  exists outs w' t,
    submit_all base items w = (Ok (Ok <$> outs), w', t)
    /\ Forall2 sound_outcome items outs.
Proof.
  revert w. induction items as [|item items IH]; intros w; simpl.
  - exists [], w, []. by split.
  - unfold bind, submit.
    destruct (download_one_sound base item w) as (o & w1 & t1 & -> & Ho).
    destruct (IH w1) as (outs & w2 & t2 & -> & Houts).
    exists (o :: outs), w2, (t1 ++ t2 ++ []). split; [done|]. by constructor.
Qed.

Lemma malformed_run base item w :
  Str.mem "&" item = false ->
  download_one base item w = (Ok (Outcome "error" item), w, []).
Proof.
  intros Hm.
  destruct (download_one_run base item w) as (o & w' & t & Heq & Hrun).
  rewrite Heq.
  destruct Hrun as [_|c name Hs _|c name r w' t Hs _ _]; [done|..];
    rewrite StrFacts.split_absent in Hs by done; by simplify_eq.
Qed.

(** C2. For every item string [download_one] returns (it does not raise)
    exactly one Outcome, tagged success, exists, empty or error and
    carrying the code of that item; and the pool, run over any list of
    items, ends with one such value per item, whatever failed on the way. *)
Theorem worker_boundary base :
  (forall item w, exists o w' t,
      download_one base item w = (Ok o, w', t)
      /\ status o ∈ ["success"; "exists"; "empty"; "error"]
      /\ code_of_item item (code o))
  /\ (forall items w, exists outs w' t,
        submit_all base items w = (Ok (Ok <$> outs), w', t)
        /\ Forall2 (fun item o =>
                      status o ∈ ["success"; "exists"; "empty"; "error"]
                      /\ code_of_item item (code o)) items outs).
Proof.
  split.
  - intros item w.
    destruct (download_one_sound base item w) as (o & w' & t & Heq & Hs & Hc).
    by exists o, w', t.
  - intros items w. apply submit_all_sound.
Qed.

(** C6. An item without '&' makes [download_one] return one Outcome tagged
    error; nothing is raised, fetched or written, and a run over that item
    alone ends with the statistics total 1, success 0, fail 1. *)
Theorem malformed_item_yields_error base item w :
  Str.mem "&" item = false ->
  (exists o, download_one base item w = (Ok o, w, []) /\ status o = "error")
  /\ main base [0] [item] w = (Ok (DownloadStats 1 0 1), w, []).
Proof.
  intros Hm. pose proof (malformed_run base item w Hm) as Heq. split.
  - eexists. split; [exact Heq|done].
  - unfold main, bind. simpl. unfold bind, submit. rewrite Heq. reflexivity.
Qed.

Lemma malformed_item_yields_error_witness :
  (exists o, download_one app_dir "600519" blank_world = (Ok o, blank_world, [])
             /\ status o = "error")
  /\ main app_dir [0] ["600519"] blank_world
     = (Ok (DownloadStats 1 0 1), blank_world, []).
Proof.
  apply (malformed_item_yields_error app_dir "600519" blank_world).
  reflexivity.
Defined.

(** C10. For an item without '&', splitting on '&' leaves the whole item as
    the first field, and the error Outcome carries it in its code field. *)
Theorem malformed_item_code base item w :
  Str.mem "&" item = false ->
  Str.split "&" None item = [item]
  /\ exists o w' t,
      download_one base item w = (Ok o, w', t)
      /\ status o = "error" /\ code o = item.
Proof.
  intros Hm. split; [by apply StrFacts.split_absent|].
  eexists _, _, _. split; [by apply malformed_run|done].
Qed.

Lemma malformed_item_code_witness :
  Str.split "&" None "平安銀行" = ["平安銀行"]
  /\ exists o w' t,
      download_one app_dir "平安銀行" blank_world = (Ok o, w', t)
      /\ status o = "error" /\ code o = "平安銀行".
Proof.
  apply (malformed_item_code app_dir "平安銀行" blank_world).
  reflexivity.
Defined.

(** ** The freshness check *)

Section Freshness.

Variables (base item c name : string) (w : world).
Hypothesis Hsplit : Str.split "&" (Some 1) item = [c; name].

Lemma run_cached :
  is_fresh w (out_path_of base c name) = true ->
  download_one base item w = (Ok (Outcome "exists" c), w, []).
Proof using Hsplit.
  intros Hfresh.
  destruct (download_one_run base item w) as (o & w' & t & -> & Hrun).
  destruct Hrun as [Hm|c' name' Hs _|c' name' r w' t Hs Hf _].
  - pose proof (StrFacts.split_absent "&" (Some 1) item Hm). congruence.
  - by replace c' with c by congruence.
  - replace c' with c in * by congruence.
    replace name' with name in * by congruence. congruence.
Qed.

Lemma run_retried :
  is_fresh w (out_path_of base c name) = false ->
  exists r w' t,
    download_one base item w = (Ok (default (Outcome "error" c) r), w', t)
    /\ loop_run (symbol_of c) (out_path_of base c name) c
         (seq 0 max_retries) w r w' t.
Proof using Hsplit.
  intros Hstale.
  destruct (download_one_run base item w) as (o & w' & t & -> & Hrun).
  destruct Hrun as [Hm|c' name' Hs Hf|c' name' r w' t Hs _ Hrun].
  - pose proof (StrFacts.split_absent "&" (Some 1) item Hm). congruence.
  - replace c' with c in * by congruence.
    replace name' with name in * by congruence. congruence.
  - replace c' with c in * by congruence.
    replace name' with name in * by congruence. by exists r, w', t.
Qed.

End Freshness.

Lemma attempt_step_starts s p c n w r w' t :
  attempt_step s p c n w r w' t -> exists d t', t = Jitter d :: Fetch s :: t'.
Proof. destruct 1; simpl; eauto. Qed.

Lemma loop_run_starts s p c n rest w r w' t :
  loop_run s p c (n :: rest) w r w' t -> exists d t', t = Jitter d :: Fetch s :: t'.
Proof.
  inversion 1 as [|? ? ? ? ? ? Hstep|? ? ? ? ? ? ? ? Hstep Hrest]; subst;
    apply attempt_step_starts in Hstep as (d & t' & ->); simpl; eauto.
Qed.

(** C3. For a well-formed item whose artifact exists, is younger than 3600
    seconds (clock minus modification time) and larger than 1000 bytes,
    [download_one] returns the exists Outcome with no event at all and the
    world untouched; when the artifact is missing, or not that young, or not
    that large, the run holds a fetch for the symbol of the item. *)
Theorem fresh_artifact_is_skipped base item c name w :
  Str.split "&" (Some 1) item = [c; name] ->
  (forall f,
      fs w !! out_path_of base c name = Some f ->
      PrimFloat.ltb (clock w - mtime f) DATA_EXPIRY_SECONDS = true ->
      1000 < size_of f ->
      download_one base item w = (Ok (Outcome "exists" c), w, []))
  /\ (fs w !! out_path_of base c name = None
      \/ (exists f,
            fs w !! out_path_of base c name = Some f
            /\ (PrimFloat.ltb (clock w - mtime f) DATA_EXPIRY_SECONDS = false
                \/ size_of f <= 1000)) ->
      exists o w' t,
        download_one base item w = (Ok o, w', t) /\ Fetch (symbol_of c) ∈ t).
Proof.
  intros Hsplit. split.
  - intros f Hf Hage Hsize. apply (run_cached base item c name w Hsplit).
    unfold is_fresh, fresh. rewrite Hf, Hage. simpl.
    by apply Nat.ltb_lt.
  - intros Hstale.
    destruct (run_retried base item c name w Hsplit) as (r & w' & t & Heq & Hrun).
    + unfold is_fresh, fresh.
      destruct Hstale as [->|(f & -> & [->|Hsize])]; [done|done|].
      apply andb_false_iff. right. by apply Nat.ltb_ge.
    + apply loop_run_starts in Hrun as (d & t' & ->).
      eexists _, _, _. split; [exact Heq|]. right. left.
Qed.

Lemma fresh_artifact_is_skipped_witness :
  download_one app_dir "600519&Kweichow Moutai" cached_world
  = (Ok (Outcome "exists" "600519"), cached_world, [])
  /\ exists o w' t,
      download_one app_dir "600519&Kweichow Moutai" stale_world = (Ok o, w', t)
      /\ Fetch (symbol_of "600519") ∈ t.
Proof.
  split.
  - apply (proj1 (fresh_artifact_is_skipped app_dir "600519&Kweichow Moutai"
                    "600519" "Kweichow Moutai" cached_world eq_refl) recent_file).
    + reflexivity.
    + reflexivity.
    + apply Nat.ltb_lt. vm_compute. reflexivity.
  - apply (proj2 (fresh_artifact_is_skipped app_dir "600519&Kweichow Moutai"
                    "600519" "Kweichow Moutai" stale_world eq_refl)).
    right. exists old_file. split; [reflexivity|]. left. reflexivity.
Defined.

(** ** Paths *)

Module PathFacts.

Lemma append_nil (b : string) : "" +:+ b = b.
Proof. reflexivity. Qed.

Lemma append_cons x (a b : string) : String x a +:+ b = String x (a +:+ b).
Proof. reflexivity. Qed.

Lemma append_assoc (a b c : string) : (a +:+ b) +:+ c = a +:+ b +:+ c.
Proof.
  induction a as [|x a IH]; [done|].
  rewrite !append_cons. by rewrite IH.
Qed.

Lemma length_append (a b : string) :
  String.length (a +:+ b) = String.length a + String.length b.
Proof.
  induction a as [|x a IH]; [done|].
  rewrite append_cons. cbn [String.length]. by rewrite IH.
Qed.

(** The last character of a string is the last character of its non-empty
    right part. *)
Lemma last_of_append (a : string) x b :
  String.substring (String.length (a +:+ String x b) - 1) 1 (a +:+ String x b)
  = String.substring (String.length (String x b) - 1) 1 (String x b).
Proof.
  induction a as [|y a IH]; [done|].
  rewrite append_cons. cbn [String.length].
  rewrite length_append in *. cbn [String.length] in *.
  replace (S (String.length a + S (String.length b)) - 1)
    with (S (String.length a + S (String.length b) - 1)) by lia.
  cbn [String.substring]. exact IH.
Qed.

Lemma endswith_append (a : string) x b :
  Str.endswith os_sep (a +:+ String x b) = Str.endswith os_sep (String x b).
Proof.
  unfold Str.endswith, os_sep.
  rewrite last_of_append, length_append. cbn -[Nat.sub String.substring].
  by destruct (String.length a).
Qed.

(** The data directory ends in its last component. *)
Lemma DATA_DIR_shape base : exists dir, DATA_DIR base = dir +:+ "dayK".
Proof.
  unfold DATA_DIR, os_path_join, MARKET_CODE, DATA_SUBDIR. cbn [fold_left].
  set (up := join_step (join_step base "data") "cn-share").
  unfold join_step at 1. cbn [Str.startswith String.prefix orb].
  change (Str.startswith os_sep "dayK") with false. cbn [orb].
  destruct (String.eqb up ""); [by exists ""|].
  destruct (Str.endswith os_sep up); [by exists up|].
  exists (up +:+ os_sep). symmetry. apply append_assoc.
Qed.

Lemma startswith_sep_append (c rest : string) x :
  Str.startswith os_sep (c +:+ String x rest)
  = match c with
    | EmptyString => Str.startswith os_sep (String x rest)
    | _ => Str.startswith os_sep c
    end.
Proof.
  destruct c as [|y c]; [done|].
  rewrite append_cons. unfold Str.startswith, os_sep. cbn [String.prefix].
  destruct (ascii_dec "/" y); [|done].
  generalize (c +:+ String x rest). intros s. by destruct c, s.
Qed.

(** An artifact whose code does not start with the separator lies in the
    data directory, under the name {code}_{name}.csv. *)
Lemma out_path_in_data_dir base c name :
  Str.startswith os_sep c = false ->
  out_path_of base c name
  = DATA_DIR base +:+ "/" +:+ c +:+ "_" +:+ name +:+ ".csv".
Proof.
  intros Hc. unfold out_path_of, os_path_join. cbn [fold_left].
  unfold join_step.
  assert (Str.startswith os_sep (c +:+ "_" +:+ name +:+ ".csv") = false) as ->.
  { change ("_" +:+ name +:+ ".csv") with (String "_" (name +:+ ".csv")).
    rewrite startswith_sep_append. by destruct c. }
  destruct (DATA_DIR_shape base) as [dir ->].
  rewrite endswith_append. cbn [orb].
  assert (String.eqb (dir +:+ "dayK") "" = false) as ->.
  { apply String.eqb_neq. by destruct dir. }
  done.
Qed.

End PathFacts.

(** ** What a run does to the disk *)

Lemma hd_elem_of {A} (d x : A) (l : list A) : hd d l = x -> x <> d -> x ∈ l.
Proof. destruct l; simpl; intros <- ?; [done|left]. Qed.

Lemma elem_of_tail {A} (x : A) (l : list A) : x ∈ tl l -> x ∈ l.
Proof. destruct l; simpl; [done|by right]. Qed.

Section Disk.

Variables s p c : string.

Lemma disk_effect_events w w' ev :
  disk_effect p w w' ev -> ev = [] \/ ev = [ToCsv p].
Proof. destruct 1; auto. Qed.

Lemma attempt_step_frame n w r w' t :
  attempt_step s p c n w r w' t ->
  forall q, q <> p -> fs w' !! q = fs w !! q.
Proof.
  intros Hstep q Hq.
  destruct Hstep as [? ? ? ? _ _ _ Hfs|? ? _ Hfs|? ? ? _ Heff|? ? ? ? _ Heff];
    try destruct Heff as [Hfs|_ Hfs|? ? ? _ _ Hfs];
    rewrite Hfs; by rewrite ?lookup_insert_ne.
Qed.

Lemma attempt_step_writes n w r w' t :
  attempt_step s p c n w r w' t -> forall q, ToCsv q ∈ t -> q = p.
Proof.
  intros Hstep q.
  destruct Hstep as [| |? ? ? _ Heff|? ? ? ? _ Heff];
    try (apply disk_effect_events in Heff as [-> | ->]);
    simpl; intros Hin;
    repeat (apply elem_of_cons in Hin as [Hin|Hin]; [by simplify_eq|]);
    by apply elem_of_nil in Hin.
Qed.

Lemma attempt_step_remote n w r w' t :
  attempt_step s p c n w r w' t -> remote w' = tl (remote w).
Proof. by destruct 1. Qed.

(** A success leaves the whole encoding of the frame just received. *)
Lemma attempt_step_stored n w o w' t :
  attempt_step s p c n w (Some o) w' t ->
  status o = "success" ->
  exists mt df,
    Frame df ∈ remote w /\ fs w' !! p = Some (File mt (encoded df)).
Proof.
  inversion 1 as [d df mt ? Hr _ _ Hfs| | |]; subst; simpl; try done.
  - intros _. exists mt, df. split.
    + by eapply hd_elem_of.
    + rewrite Hfs. by rewrite lookup_insert_eq.
  - case_match; by simplify_eq.
Qed.

Lemma loop_run_frame range w r w' t :
  loop_run s p c range w r w' t ->
  forall q, q <> p -> fs w' !! q = fs w !! q.
Proof.
  induction 1 as [|? ? ? ? ? ? Hstep|? ? ? ? ? ? ? ? Hstep _ IH]; intros q Hq.
  - done.
  - by eapply attempt_step_frame.
  - rewrite IH by done. by eapply attempt_step_frame.
Qed.

Lemma loop_run_writes range w r w' t :
  loop_run s p c range w r w' t -> forall q, ToCsv q ∈ t -> q = p.
Proof.
  induction 1 as [|? ? ? ? ? ? Hstep|? ? ? ? ? ? ? ? Hstep _ IH]; intros q.
  - by rewrite elem_of_nil.
  - by eapply attempt_step_writes.
  - rewrite elem_of_app. intros [?|?]; [by eapply attempt_step_writes|auto].
Qed.

Lemma loop_run_stored range w o w' t :
  loop_run s p c range w (Some o) w' t ->
  status o = "success" ->
  exists mt df,
    Frame df ∈ remote w /\ fs w' !! p = Some (File mt (encoded df)).
Proof.
  remember (Some o) as r eqn:Hr.
  induction 1 as [|? ? ? ? ? ? Hstep|? ? ? ? ? ? ? ? Hstep _ IH]; intros Hst.
  - done.
  - simplify_eq. by eapply attempt_step_stored.
  - destruct (IH Hr Hst) as (mt & df & Hin & Hfs).
    exists mt, df. split; [|done].
    apply attempt_step_remote in Hstep. rewrite Hstep in Hin.
    by apply elem_of_tail.
Qed.

End Disk.

(** ** What a turn does, by the reply it receives *)

Local Ltac run_turn Hr He Ht Hd Hn :=
  unfold attempt_body, try_except, bind, history, normalise, to_csv;
  cbn; rewrite ?Hr; cbn; rewrite ?He, ?Ht; cbn; rewrite ?Hd; cbn;
  try change (?n =? 2) with (n =? max_retries - 1); rewrite ?Hn; cbn.

Section Turn.

Variables s p c : string.

(** A frame with rows that normalises, on a disk that writes: the turn
    returns success and the artifact holds the whole encoding, stamped with
    the clock at the return. *)
Lemma attempt_body_stored n w df :
  hd Fails (remote w) = Frame df -> empty df = false -> tidy df = true ->
  hd Written (disk w) = Written ->
  exists d w',
    attempt_body s p c n w
    = (Ok (Some (Outcome "success" c)), w', [Jitter d; Fetch s; ToCsv p])
    /\ fs w' = <[p := File (clock w') (encoded df)]> (fs w)
    /\ remote w' = tl (remote w) /\ disk w' = tl (disk w).
Proof.
  intros Hr He Ht Hd. run_turn Hr He Ht Hd Hd.
  eexists _, _. split; [reflexivity|]. by repeat split.
Qed.

(** No rows: the turn neither writes nor sleeps a backoff. *)
Lemma attempt_body_rowless n w :
  no_rows (hd Fails (remote w)) = true ->
  exists d w',
    attempt_body s p c n w
    = (Ok (if n =? max_retries - 1 then Some (Outcome "empty" c) else None), w',
       [Jitter d; Fetch s])
    /\ fs w' = fs w /\ remote w' = tl (remote w) /\ disk w' = disk w.
Proof.
  intros Hrows.
  destruct (hd Fails (remote w)) as [| |df] eqn:Hr; simpl in Hrows; [done| |];
    destruct (n =? max_retries - 1) eqn:Hn;
    run_turn Hr Hrows Hrows Hr Hn;
    eexists _, _; (split; [reflexivity|]); by repeat split.
Qed.

(** The remote call raises: the turn is caught; before the last turn it
    sleeps a backoff and goes on, on the last turn it returns error. *)
Lemma attempt_body_fails n w :
  hd Fails (remote w) = Fails ->
  exists d z w',
    attempt_body s p c n w
    = (Ok (if n =? max_retries - 1 then Some (Outcome "error" c) else None), w',
       [Jitter d; Fetch s; Caught n]
         ++ (if n =? max_retries - 1 then [] else [Backoff z]))
    /\ fs w' = fs w /\ remote w' = tl (remote w) /\ disk w' = disk w.
Proof.
  intros Hr. destruct (n =? max_retries - 1) eqn:Hn; run_turn Hr Hr Hr Hr Hn.
  - eexists _, 0%Z, _. split; [reflexivity|]. by repeat split.
  - eexists _, _, _. split; [reflexivity|]. by repeat split.
Qed.

(** Every backoff of a turn lasts from 5 to 12 seconds. *)
Lemma attempt_body_backoff n w z :
  Backoff z ∈ (attempt_body s p c n w).2 -> (5 <= z <= 12)%Z.
Proof.
  pose proof (Z.mod_pos_bound (hd 0%Z (int_draws w)) (12 - 5 + 1) eq_refl) as Hdraw.
  destruct (hd Fails (remote w)) as [| |df] eqn:Hr;
    [| |destruct (empty df) eqn:He;
        [|destruct (tidy df) eqn:Ht;
           [destruct (hd Written (disk w)) as [| |k] eqn:Hd|]]];
    destruct (n =? max_retries - 1) eqn:Hn;
    run_turn Hr He Ht Hd Hn;
    intros Hin;
    repeat (apply elem_of_cons in Hin as [Hin|Hin]; [simplify_eq; lia|]);
    by apply elem_of_nil in Hin.
Qed.

Lemma for_range_backoff range w z :
  Backoff z ∈ (for_range (attempt_body s p c) range w).2 -> (5 <= z <= 12)%Z.
Proof.
  revert w. induction range as [|n rest IH]; intros w; simpl.
  - by intros ?%elem_of_nil.
  - unfold bind.
    pose proof (attempt_body_backoff n w z) as Hturn.
    destruct (attempt_body s p c n w) as [[[[o|]|e] w1] t1]; simpl in *.
    + rewrite app_nil_r. exact Hturn.
    + specialize (IH w1).
      destruct (for_range (attempt_body s p c) rest w1) as [[r w2] t2]; simpl in *.
      rewrite elem_of_app. intros [?|?]; auto.
    + exact Hturn.
Qed.

End Turn.

(** The three ways through the worker, with the loop as the function it is. *)
Lemma download_one_cases base item w :
  (Str.mem "&" item = false
   /\ download_one base item w = (Ok (Outcome "error" item), w, []))
  \/ (exists c name,
        Str.split "&" (Some 1) item = [c; name]
        /\ is_fresh w (out_path_of base c name) = true
        /\ download_one base item w = (Ok (Outcome "exists" c), w, []))
  \/ (exists c name r w' t,
        Str.split "&" (Some 1) item = [c; name]
        /\ is_fresh w (out_path_of base c name) = false
        /\ for_range (attempt_body (symbol_of c) (out_path_of base c name) c)
             (seq 0 max_retries) w = (Ok r, w', t)
        /\ loop_run (symbol_of c) (out_path_of base c name) c
             (seq 0 max_retries) w r w' t
        /\ download_one base item w
           = (Ok (default (Outcome "error" c) r), w', t)).
Proof.
  destruct (Str.mem "&" item) eqn:Hm.
  - right. destruct (StrFacts.mem_first _ _ Hm) as (c & name & -> & Hc).
    pose proof (StrFacts.split_first "&" c name Hc) as Hsplit.
    destruct (is_fresh w (out_path_of base c name)) eqn:Hfresh.
    + left. exists c, name. split; [done|]. split; [done|].
      by apply (run_cached base _ c name).
    + right.
      destruct (for_range_run (symbol_of c) (out_path_of base c name) c
                  (seq 0 max_retries) w) as (r & w' & t & Hloop & Hrun).
      exists c, name, r, w', t. split; [done|]. split; [done|].
      split; [done|]. split; [done|].
      unfold download_one. unfold bind at 1. unfold try_except. unfold bind at 1.
      rewrite Hsplit. cbn -[out_path_of symbol_of for_range seq].
      unfold bind at 1. rewrite freshness_check_eq, Hfresh.
      cbn -[out_path_of symbol_of for_range seq].
      unfold bind at 1. rewrite Hloop.
      destruct r as [o|]; cbn; by rewrite ?app_nil_r.
  - left. split; [done|]. by apply malformed_run.
Qed.

(** ** Splitting at the first '&' and the path of the artifact *)

(** C8. An item is split at its first '&' only: for a code without '&' and
    any name, also one that holds '&', the worker takes the item code&name
    for exactly that code and that name.  Its artifact is the file
    {code}_{name}.csv of the data directory, with the whole name in it.
    When that file is fresh, the worker answers exists for the code.  When
    it is not and the remote service returns rows, the worker fetches the
    symbol of the code, writes the encoded frame at that path and answers
    success.  In every run the Outcome bears the code, the worker writes
    nowhere else, and after a success that path holds an encoded frame. *)
Theorem split_at_first_amp base c name w :
  Str.mem "&" c = false ->
  Str.split "&" (Some 1) (c +:+ String "&" name) = [c; name]
  /\ out_path_of base c name
     = os_path_join (DATA_DIR base) [c +:+ "_" +:+ name +:+ ".csv"]
  /\ (Str.startswith "/" c = false ->
      out_path_of base c name
      = DATA_DIR base +:+ "/" +:+ c +:+ "_" +:+ name +:+ ".csv")
  /\ (is_fresh w (out_path_of base c name) = true ->
      download_one base (c +:+ String "&" name) w
      = (Ok (Outcome "exists" c), w, []))
  /\ (is_fresh w (out_path_of base c name) = false ->
      forall df,
        hd Fails (remote w) = Frame df -> empty df = false -> tidy df = true ->
        hd Written (disk w) = Written ->
        exists d w',
          download_one base (c +:+ String "&" name) w
          = (Ok (Outcome "success" c), w',
             [Jitter d; Fetch (symbol_of c); ToCsv (out_path_of base c name)])
          /\ fs w'
             = <[out_path_of base c name := File (clock w') (encoded df)]> (fs w))
  /\ exists o w' t,
      download_one base (c +:+ String "&" name) w = (Ok o, w', t)
      /\ code o = c
      /\ (forall q, ToCsv q ∈ t -> q = out_path_of base c name)
      /\ (forall q, q <> out_path_of base c name -> fs w' !! q = fs w !! q)
      /\ (status o = "success" ->
          exists mt df,
            Frame df ∈ remote w
            /\ fs w' !! out_path_of base c name = Some (File mt (encoded df))).
Proof.
  intros Hc.
  pose proof (StrFacts.split_first "&" c name Hc) as Hsplit.
  split; [done|]. split; [done|].
  split; [apply PathFacts.out_path_in_data_dir|].
  split; [intros Hfresh; by apply (run_cached base _ c name)|].
  split.
  - intros Hstale df Hr He Ht Hd.
    destruct (attempt_body_stored (symbol_of c) (out_path_of base c name) c 0 w df
                Hr He Ht Hd) as (d & w1 & E1 & Hfs & _).
    destruct (download_one_cases base (c +:+ String "&" name) w)
      as [[Hm _]|[(c' & name' & Hs & Hf & _)
                 |(c' & name' & r & w' & t & Hs & _ & Hloop & _ & ->)]].
    + pose proof (StrFacts.split_absent "&" (Some 1) _ Hm). congruence.
    + replace c' with c in * by congruence.
      replace name' with name in * by congruence. congruence.
    + replace c' with c in * by congruence.
      replace name' with name in * by congruence.
      cbn [max_retries seq for_range] in Hloop. unfold bind at 1 in Hloop.
      rewrite E1 in Hloop. cbn in Hloop. simplify_eq.
      by exists d, w'.
  - destruct (is_fresh w (out_path_of base c name)) eqn:Hfresh.
    + exists (Outcome "exists" c), w, [].
      split; [by apply (run_cached base _ c name)|].
      split; [done|]. split; [by intros q ?%elem_of_nil|]. by split.
    + destruct (run_retried base _ c name w Hsplit Hfresh) as (r & w' & t & Heq & Hrun).
      eexists _, w', t. split; [exact Heq|].
      split; [|split; [by eapply loop_run_writes|split; [by eapply loop_run_frame|]]].
      * destruct r as [o|]; [|done]. simpl. by apply loop_run_outcome in Hrun as [? _].
      * destruct r as [o|]; [|done]. simpl. by eapply loop_run_stored.
Qed.

Lemma split_at_first_amp_witness :
  Str.split "&" (Some 1) "600519&R&D Holdings" = ["600519"; "R&D Holdings"]
  /\ out_path_of app_dir "600519" "R&D Holdings"
     = "/srv/app/data/cn-share/dayK/600519_R&D Holdings.csv"
  /\ exists d w',
      download_one app_dir "600519&R&D Holdings" serving_world
      = (Ok (Outcome "success" "600519"), w',
         [Jitter d; Fetch "600519.SS";
          ToCsv "/srv/app/data/cn-share/dayK/600519_R&D Holdings.csv"])
      /\ fs w' !! "/srv/app/data/cn-share/dayK/600519_R&D Holdings.csv"
         = Some (File (clock w') (encoded two_bars)).
Proof.
  destruct (split_at_first_amp app_dir "600519" "R&D Holdings" serving_world eq_refl)
    as (Hsplit & _ & Hpath & _ & Hstored & _).
  split; [exact Hsplit|]. split; [exact (Hpath eq_refl)|].
  destruct (Hstored eq_refl two_bars eq_refl eq_refl eq_refl eq_refl)
    as (d & w' & Hrun & Hfs).
  exists d, w'. split; [exact Hrun|].
  rewrite Hfs. apply lookup_insert_eq.
Defined.

(** ** The pace of the retry loop *)

Lemma count_app f t1 t2 : count f (t1 ++ t2) = count f t1 + count f t2.
Proof. induction t1 as [|e t1 IH]; simpl; [done|]. rewrite IH. lia. Qed.

(** [paced] says what it should about every backoff of the trace. *)
Lemma paced_spec t :
  paced t ->
  forall pre z post,
    t = pre ++ Backoff z :: post ->
    (exists pre' n, pre = pre' ++ [Caught n] /\ n < max_retries - 1)
    /\ (exists d post', post = Jitter d :: post').
Proof.
  induction 1 as [|n z0 d t Hn _ IH|e t He _ IH]; intros pre z post Heq.
  - by destruct pre.
  - destruct pre as [|e1 [|e2 pre]]; simplify_eq/=.
    + split; [by exists [], n|by exists d, t].
    + destruct (IH pre z post) as [(pre' & m & -> & Hm) Hpost]; [done|].
      split; [|done]. by exists (Caught n :: Backoff z0 :: pre'), m.
  - destruct pre as [|e1 pre]; simplify_eq/=.
    destruct (IH pre z post) as [(pre' & m & -> & Hm) Hpost]; [done|].
    split; [|done]. by eexists (_ :: pre'), m.
Qed.

Lemma paced_quiet t : count is_backoff t = 0 -> paced t.
Proof.
  induction t as [|e t IH]; simpl; [constructor|].
  destruct (is_backoff e) eqn:He; [done|]. intros Ht.
  apply paced_other; auto.
Qed.

Lemma paced_app_quiet t1 t2 :
  count is_backoff t1 = 0 -> paced t2 -> paced (t1 ++ t2).
Proof.
  induction t1 as [|e t1 IH]; simpl; [done|].
  destruct (is_backoff e) eqn:He; [done|]. intros Ht1 Ht2.
  apply paced_other; auto.
Qed.

(** What one turn adds to the counts: nothing caught and no backoff; or
    one caught on the last turn, an error and no backoff; or one caught
    before the last turn, one backoff at the very end and the loop going on. *)
Lemma attempt_step_pace s p c n w r w' t :
  attempt_step s p c n w r w' t ->
  (count is_caught t = 0 /\ count is_backoff t = 0)
  \/ (count is_caught t = 1 /\ count is_backoff t = 0
      /\ n = max_retries - 1 /\ r = Some (Outcome "error" c))
  \/ (count is_caught t = 1 /\ n <> max_retries - 1 /\ r = None
      /\ exists t0 z, t = t0 ++ [Caught n; Backoff z] /\ count is_backoff t0 = 0).
Proof.
  destruct 1 as [| |d ev w' Hn Heff _|d ev z w' Hn Heff _].
  - left. by split.
  - left. by split.
  - right. left. apply disk_effect_events in Heff as [-> | ->]; by repeat split.
  - right. right. split; [|split; [done|split; [done|]]].
    + by apply disk_effect_events in Heff as [-> | ->].
    + exists ([Jitter d; Fetch s] ++ ev), z. rewrite <- app_assoc. split; [done|].
      by apply disk_effect_events in Heff as [-> | ->].
Qed.

Lemma seq_cons_inv n (rest : list nat) k m :
  n :: rest = seq k m -> n = k /\ exists m', m = S m' /\ rest = seq (S k) m'.
Proof. destruct m as [|m']; simpl; intros; simplify_eq. eauto. Qed.

Section Pace.

Variables s p c : string.

Lemma loop_run_paced range w r w' t :
  loop_run s p c range w r w' t ->
  forall k, range = seq k (max_retries - k) -> paced t.
Proof.
  induction 1 as [|n rest w o w' t Hstep|n rest w w1 t1 r w2 t2 Hstep Hrest IH];
    intros k Hrange.
  - constructor.
  - apply paced_quiet.
    apply attempt_step_pace in Hstep as [[_ ?]|[(_ & ? & _)|(_ & _ & ? & _)]]; done.
  - apply seq_cons_inv in Hrange as (-> & m & Hm & ->).
    assert (paced t2) as Ht2 by (apply (IH (S k)); f_equal; lia).
    apply attempt_step_pace in Hstep
      as [[_ ?]|[(_ & _ & _ & ?)|(_ & Hk & _ & t0 & z & -> & Ht0)]];
      [by apply paced_app_quiet|done|].
    destruct m as [|m]; [unfold max_retries in *; lia|].
    apply loop_run_starts in Hrest as (d & t' & ->).
    rewrite <- app_assoc. apply paced_app_quiet; [done|]. simpl.
    apply paced_backoff; [unfold max_retries in *; lia|done].
Qed.

Lemma loop_run_counts range w r w' t :
  loop_run s p c range w r w' t ->
  forall k, range = seq k (max_retries - k) ->
    count is_caught t <= length range
    /\ (range <> [] -> count is_caught t = length range ->
        count is_backoff t = length range - 1
        /\ r = Some (Outcome "error" c)).
Proof.
  induction 1 as [|n rest w o w' t Hstep|n rest w w1 t1 r w2 t2 Hstep Hrest IH];
    intros k Hrange.
  - by split.
  - simpl.
    apply attempt_step_pace in Hstep
      as [[-> ->]|[(-> & -> & _ & ->)|(_ & _ & ? & _)]]; [| |done].
    + split; [lia|]. intros _ ?. lia.
    + split; [lia|]. intros _ ?. split; [lia|done].
  - apply seq_cons_inv in Hrange as (-> & m & Hm & ->).
    destruct (IH (S k)) as [Hle Hall]; [f_equal; lia|].
    rewrite !count_app. simpl. rewrite length_seq in *.
    apply attempt_step_pace in Hstep
      as [[-> ->]|[(_ & _ & _ & ?)|(-> & Hk & _ & t0 & z & -> & Ht0)]];
      [|done|].
    + split; [lia|]. intros _ ?. lia.
    + split; [lia|]. intros _ Hfull.
      destruct m as [|m]; [unfold max_retries in *; lia|].
      destruct Hall as [Hb ->]; [done|lia|].
      split; [|done].
      rewrite count_app, Ht0, Hb. simpl. lia.
Qed.

End Pace.

(** C5. In every run of the worker a backoff sleep stands only right after
    the [except] of a turn that is not the last one, and right before the
    jitter that opens the next turn; so none follows the final attempt.
    When all three turns raise, there are exactly two backoff sleeps and
    the Outcome is error. *)
Theorem backoff_between_attempts base item w :
  exists o w' t,
    download_one base item w = (Ok o, w', t)
    /\ (forall pre z post,
          t = pre ++ Backoff z :: post ->
          (exists pre' n, pre = pre' ++ [Caught n] /\ n < max_retries - 1)
          /\ (exists d post', post = Jitter d :: post'))
    /\ (count is_caught t = max_retries ->
        count is_backoff t = 2 /\ status o = "error").
Proof.
  destruct (download_one_run base item w) as (o & w' & t & Heq & Hrun).
  exists o, w', t. split; [exact Heq|].
  destruct Hrun as [_|? ? _ _|c name r w' t _ _ Hrun].
  - split; [intros pre ? ? ?; by destruct pre|done].
  - split; [intros pre ? ? ?; by destruct pre|done].
  - split.
    + apply paced_spec. by apply (loop_run_paced _ _ _ _ _ _ _ _ Hrun 0).
    + intros Hall.
      destruct (loop_run_counts _ _ _ _ _ _ _ _ Hrun 0 eq_refl) as [_ Hfull].
      by destruct Hfull as [-> ->].
Qed.

Lemma backoff_between_attempts_witness :
  exists o w' t,
    download_one app_dir "000002&Vanke" blank_world = (Ok o, w', t)
    /\ count is_backoff t = 2 /\ status o = "error".
Proof.
  destruct (backoff_between_attempts app_dir "000002&Vanke" blank_world)
    as (o & w' & t & Heq & _ & Hall).
  exists o, w', t. split; [exact Heq|].
  apply Hall.
  vm_compute in Heq. injection Heq as _ _ <-. reflexivity.
Defined.

(** ** Writes that fail partway *)

Section Torn.

Variables s p c : string.

Lemma attempt_step_torn n w r w' t :
  attempt_step s p c n w r w' t ->
  r <> Some (Outcome "success" c) ->
  fs w' = fs w
  \/ exists k df mt,
      hd Written (disk w) = Torn k /\ Frame df ∈ remote w
      /\ fs w' = <[p := File mt (String.substring 0 k (encoded df))]> (fs w).
Proof.
  destruct 1 as [|? ? _ Hfs|? ? ? _ Heff|? ? ? ? _ Heff]; intros Hr; [done|by left|..];
    (destruct Heff as [Hfs|_ Hfs|k df mt Hk Hdf Hfs]; [by left|by left|]);
    right; exists k, df, mt; (split; [done|split; [by eapply hd_elem_of|done]]).
Qed.

Lemma loop_run_torn range w r w' t :
  loop_run s p c range w r w' t ->
  r <> Some (Outcome "success" c) ->
  as_before_or_truncated p w w'.
Proof.
  unfold as_before_or_truncated.
  induction 1 as [|n rest w o w' t Hstep|n rest w w1 t1 r w2 t2 Hstep Hrest IH];
    intros Hr.
  - by left.
  - destruct (attempt_step_torn _ _ _ _ _ Hstep Hr)
      as [->|(k & df & mt & _ & Hdf & ->)]; [by left|].
    right. exists k, df, mt. by rewrite lookup_insert_eq.
  - pose proof (attempt_step_remote _ _ _ _ _ _ _ _ Hstep) as Hrem.
    destruct (IH Hr) as [Hsame|(k & df & mt & Hdf & Hfs)].
    + rewrite Hsame.
      destruct (attempt_step_torn _ _ _ _ _ Hstep)
        as [->|(k & df & mt & _ & Hdf & ->)]; [done|by left|].
      right. exists k, df, mt. by rewrite lookup_insert_eq.
    + right. exists k, df, mt. split; [|done].
      rewrite Hrem in Hdf. by apply elem_of_tail.
Qed.

(** On a disk that never tears a write, a turn without success leaves the
    file system alone. *)
Lemma attempt_step_untorn n w r w' t :
  Forall (fun d => tears d = false) (disk w) ->
  attempt_step s p c n w r w' t ->
  Forall (fun d => tears d = false) (disk w')
  /\ (r <> Some (Outcome "success" c) -> fs w' = fs w).
Proof.
  intros Hdisk Hstep.
  assert (forall k, hd Written (disk w) <> Torn k) as Hhd.
  { intros k Hk. destruct Hdisk as [|d l Hd _]; simpl in *; [done|].
    by rewrite Hk in Hd. }
  assert (Forall (fun d => tears d = false) (tl (disk w))) as Htl.
  { destruct Hdisk; simpl; [constructor|done]. }
  destruct Hstep as [? ? ? ? _ _ _ _ _ Hd|? ? _ Hfs _ Hd|? ? ? _ Heff|? ? ? ? _ Heff].
  - by rewrite Hd.
  - by rewrite Hd.
  - destruct Heff as [Hfs Hd|_ Hfs Hd|k ? ? Hk]; rewrite ?Hd; try done.
    by destruct (Hhd k).
  - destruct Heff as [Hfs Hd|_ Hfs Hd|k ? ? Hk]; rewrite ?Hd; try done.
    by destruct (Hhd k).
Qed.

Lemma loop_run_untorn range w r w' t :
  Forall (fun d => tears d = false) (disk w) ->
  loop_run s p c range w r w' t ->
  r <> Some (Outcome "success" c) ->
  fs w' = fs w.
Proof.
  intros Hdisk Hrun. revert Hdisk.
  induction Hrun as [|n rest w o w' t Hstep|n rest w w1 t1 r w2 t2 Hstep Hrest IH];
    intros Hdisk Hr.
  - done.
  - by eapply attempt_step_untorn.
  - destruct (attempt_step_untorn _ _ _ _ _ Hdisk Hstep) as [Hdisk1 Hfs].
    rewrite IH by done. by apply Hfs.
Qed.

End Torn.

(** C4, as the code has it.  [to_csv] writes at the artifact path itself.  A
    write that fails is caught inside the worker, which still returns an
    Outcome, and no other path is touched; but after a run that did not end
    in success the artifact path is either as before or holds the first
    bytes, as many as reached the disk, of the encoding of a frame the remote
    service returned: nothing replaces the file atomically or discards the
    partial one. *)
Theorem write_in_place base item c name w :
  Str.split "&" (Some 1) item = [c; name] ->
  exists o w' t,
    download_one base item w = (Ok o, w', t)
    /\ (forall q, q <> out_path_of base c name -> fs w' !! q = fs w !! q)
    /\ (status o <> "success" ->
        as_before_or_truncated (out_path_of base c name) w w').
Proof.
  intros Hsplit.
  destruct (is_fresh w (out_path_of base c name)) eqn:Hfresh.
  - exists (Outcome "exists" c), w, [].
    split; [by apply (run_cached base item c name)|].
    split; [done|]. intros _. by left.
  - destruct (run_retried base item c name w Hsplit Hfresh)
      as (r & w' & t & Heq & Hrun).
    eexists _, w', t. split; [exact Heq|].
    split; [by eapply loop_run_frame|].
    intros Hst. eapply loop_run_torn; [exact Hrun|].
    intros ->. by apply Hst.
Qed.

Lemma write_in_place_witness :
  exists o w' t,
    download_one app_dir "600519&Kweichow Moutai" tearing_world = (Ok o, w', t)
    /\ (forall q, q <> moutai_path -> fs w' !! q = fs tearing_world !! q)
    /\ as_before_or_truncated moutai_path tearing_world w'.
Proof.
  destruct (write_in_place app_dir "600519&Kweichow Moutai" "600519"
              "Kweichow Moutai" tearing_world eq_refl)
    as (o & w' & t & Heq & Hframe & Hpath).
  exists o, w', t. split; [exact Heq|]. split; [exact Hframe|].
  apply Hpath.
  vm_compute in Heq. injection Heq as <- _ _. discriminate.
Defined.

(** C4, as stated, fails: the stale artifact of 5000 bytes is replaced by
    the first 10 bytes of the new file when the write fails there. *)
Lemma torn_write_stays_at_artifact_path :
  exists w' t,
    download_one app_dir "600519&Kweichow Moutai" tearing_world
    = (Ok (Outcome "error" "600519"), w', t)
    /\ count is_caught t = 3
    /\ ToCsv moutai_path ∈ t
    /\ size_of <$> fs tearing_world !! moutai_path = Some 5000
    /\ content <$> fs w' !! moutai_path
       = Some (String.substring 0 10 (encoded two_bars))
    /\ fs w' !! moutai_path <> fs tearing_world !! moutai_path.
Proof.
  eexists _, _. split; [vm_compute; reflexivity|].
  split; [reflexivity|]. split; [do 2 right; left|].
  split; [vm_compute; reflexivity|]. split; [vm_compute; reflexivity|].
  intros H. apply (f_equal (fmap size_of)) in H. vm_compute in H. discriminate.
Qed.

(** C9, as the code has it.  On a disk that tears no write, a symbol whose
    Outcome is empty leaves the file system exactly as it was, so that a
    later freshness check, at any time, answers as before the run. *)
Theorem empty_outcome_keeps_disk base item w :
  Forall (fun d => tears d = false) (disk w) ->
  exists o w' t,
    download_one base item w = (Ok o, w', t)
    /\ (status o = "empty" ->
        fs w' = fs w
        /\ forall now p, is_fresh (set_clock now w') p = is_fresh (set_clock now w) p).
Proof.
  intros Hdisk.
  destruct (download_one_run base item w) as (o & w' & t & Heq & Hrun).
  exists o, w', t. split; [exact Heq|].
  destruct Hrun as [_|? ? _ _|c name r w' t _ _ Hrun]; [done|done|].
  intros Hst.
  assert (fs w' = fs w) as Hfs.
  { eapply loop_run_untorn; [exact Hdisk|exact Hrun|]. by intros ->. }
  split; [done|]. intros now p. unfold is_fresh. simpl. by rewrite Hfs.
Qed.

Lemma empty_outcome_keeps_disk_witness :
  exists w' t,
    download_one app_dir "000002&Vanke" rowless_world
    = (Ok (Outcome "empty" "000002"), w', t)
    /\ fs w' = fs rowless_world.
Proof.
  destruct (empty_outcome_keeps_disk app_dir "000002&Vanke" rowless_world)
    as (o & w' & t & Heq & Hkeep).
  - constructor.
  - assert (o = Outcome "empty" "000002") as ->.
    { vm_compute in Heq. by injection Heq as <- _ _. }
    exists w', t. split; [exact Heq|]. by apply Hkeep.
Defined.

(** C9, as stated, fails: the first turn receives a frame and the write
    fails 1200 bytes in, the two other turns receive nothing.  The Outcome
    is empty, a file of 1200 bytes is left at the artifact path, and the
    next call takes it for a fresh artifact. *)
Lemma empty_outcome_after_torn_write :
  exists w' t,
    download_one app_dir "000002&Vanke" half_written_world
    = (Ok (Outcome "empty" "000002"), w', t)
    /\ fs half_written_world !! vanke_path = None
    /\ size_of <$> fs w' !! vanke_path = Some 1200
    /\ download_one app_dir "000002&Vanke" w'
       = (Ok (Outcome "exists" "000002"), w', []).
Proof.
  eexists _, _. split; [vm_compute; reflexivity|].
  split; [reflexivity|]. split; vm_compute; reflexivity.
Qed.

(** ** The aggregation *)

Lemma as_completed_fmap {A B} (f : A -> B) (order : list nat) (l : list A) :
  as_completed order (f <$> l) = f <$> as_completed order l.
Proof.
  unfold as_completed. induction order as [|i order IH]; csimpl; [done|].
  rewrite list_lookup_fmap. destruct (l !! i); csimpl; by rewrite IH.
Qed.

Lemma omap_lookup_seq {A} (l pre : list A) :
  omap (fun i => (pre ++ l) !! i) (seq (length pre) (length l)) = l.
Proof.
  revert pre. induction l as [|a l IH]; intros pre; csimpl; [done|].
  rewrite list_lookup_middle by done. csimpl. f_equal.
  specialize (IH (pre ++ [a])). rewrite <- app_assoc, length_app in IH.
  simpl in IH. by rewrite Nat.add_1_r in IH.
Qed.

(** Every future is handed back once. *)
Lemma as_completed_perm {A} (order : list nat) (l : list A) :
  order ≡ₚ seq 0 (length l) -> as_completed order l ≡ₚ l.
Proof.
  intros Hperm. unfold as_completed. rewrite Hperm.
  pose proof (omap_lookup_seq l []) as Hall. cbn [app length] in Hall.
  by rewrite Hall.
Qed.

Lemma count_tag_perm k outs outs' :
  outs ≡ₚ outs' -> count_tag k outs = count_tag k outs'.
Proof. induction 1; simpl; lia. Qed.

Lemma count_tag_total outs :
  Forall (fun o => status o ∈ TAGS) outs ->
  length outs
  = count_tag "success" outs + count_tag "exists" outs
    + (count_tag "error" outs + count_tag "empty" outs).
Proof.
  induction 1 as [|o outs Ho _ IH]; simpl; [done|].
  unfold TAGS in Ho. rewrite !elem_of_cons, elem_of_nil in Ho.
  destruct Ho as [->|[->|[->|[->|[]]]]]; simpl; lia.
Qed.

(** One turn of the loop of lines 139-142 on a future that holds a value. *)
Lemma tally_cons stats o done w :
  tally stats (Ok o :: done) w
  = match stats !! status o with
    | Some v => tally (<[status o := v + 1]> stats) done w
    | None => (Exc KeyError, w, [])
    end.
Proof.
  cbn [tally future_result]. unfold bind at 1. cbn [ret].
  unfold bind at 1. unfold dict_incr, bind at 1, dict_get.
  destruct (stats !! status o) as [v|]; cbn [ret raise]; [|done].
  by destruct (tally _ done w) as [[r w'] t].
Qed.

(** The counters after the loop of lines 139-142: each has grown by the
    number of Outcomes with its tag. *)
Lemma tally_run outs stats w :
  Forall (fun o => is_Some (stats !! status o)) outs ->
  exists stats',
    tally stats (Ok <$> outs) w = (Ok stats', w, [])
    /\ forall k, stats' !! k = (fun v => v + count_tag k outs) <$> stats !! k.
Proof.
  revert stats. induction outs as [|o outs IH]; intros stats Hkeys.
  - exists stats. split; [done|]. intros k. simpl.
    destruct (stats !! k); simpl; f_equal; lia.
  - inversion Hkeys as [|? ? [v Hv] Hrest]; subst.
    rewrite fmap_cons, tally_cons, Hv.
    destruct (IH (<[status o := v + 1]> stats)) as (stats' & -> & Hlook).
    { eapply Forall_impl; [exact Hrest|]. intros o' [v' Hv']. simpl in *.
      rewrite lookup_insert. case_decide; eauto. }
    exists stats'. split; [done|]. intros k. rewrite Hlook, lookup_insert.
    cbn [count_tag]. case_decide as Hk.
    + subst k. rewrite Hv. simpl. f_equal. lia.
    + done.
Qed.

Lemma report_run n stats w s x e m :
  stats !! "success" = Some s -> stats !! "exists" = Some x ->
  stats !! "error" = Some e -> stats !! "empty" = Some m ->
  report n stats w = (Ok (DownloadStats n (s + x) (e + m)), w, []).
Proof.
  intros Hs Hx He Hm. unfold report, bind, dict_get. simpl.
  rewrite Hs. simpl. rewrite Hx. simpl. rewrite He. simpl. rewrite Hm. done.
Qed.

Lemma initial_stats_keys o :
  status o ∈ TAGS -> is_Some (initial_stats !! status o).
Proof.
  unfold TAGS. rewrite !elem_of_cons, elem_of_nil.
  intros [->|[->|[->|[->|[]]]]]; by eexists.
Qed.

Lemma aggregate_run n outs w :
  Forall (fun o => status o ∈ TAGS) outs ->
  aggregate n (Ok <$> outs) w
  = (Ok (DownloadStats n
           (count_tag "success" outs + count_tag "exists" outs)
           (count_tag "error" outs + count_tag "empty" outs)), w, []).
Proof.
  intros Htags. unfold aggregate, bind.
  destruct (tally_run outs initial_stats w) as (stats & -> & Hlook).
  { eapply Forall_impl; [exact Htags|]. apply initial_stats_keys. }
  erewrite report_run; [done|rewrite Hlook; reflexivity..].
Qed.

(** [main] is the pool followed by the aggregation of what arrives. *)
Lemma main_aggregate base order items w outs w1 t1 :
  submit_all base items w = (Ok (Ok <$> outs), w1, t1) ->
  main base order items w
  = let '(r, w2, t2) :=
      aggregate (length items) (Ok <$> as_completed order outs) w1 in
    (r, w2, t1 ++ t2).
Proof.
  intros Hpool. unfold main. unfold bind at 1. rewrite Hpool.
  by rewrite as_completed_fmap.
Qed.

(** C1. Whatever the order in which the futures complete, [main] returns
    statistics whose total is the number of items, whose success is the
    number of Outcomes tagged success or exists, whose fail is the number
    tagged error or empty, and total = success + fail. *)
Theorem statistics_partition base order items w :
  order ≡ₚ seq 0 (length items) ->
  exists outs st w' t,
    submit_all base items w = (Ok (Ok <$> outs), w', t)
    /\ main base order items w = (Ok st, w', t)
    /\ total st = length items
    /\ success st = count_tag "success" outs + count_tag "exists" outs
    /\ fail st = count_tag "error" outs + count_tag "empty" outs
    /\ total st = success st + fail st.
Proof.
  intros Horder.
  destruct (submit_all_sound base items w) as (outs & w' & t & Hpool & Hsound).
  pose proof (Forall2_length _ _ _ Hsound) as Hlen.
  assert (Forall (fun o => status o ∈ TAGS) outs) as Htags.
  { clear -Hsound. induction Hsound as [|? ? ? ? [? _]]; by constructor. }
  assert (as_completed order outs ≡ₚ outs) as Hperm.
  { apply as_completed_perm. by rewrite <- Hlen. }
  eexists outs, _, w', t. split; [exact Hpool|].
  split.
  { rewrite (main_aggregate _ _ _ _ _ _ _ Hpool), aggregate_run.
    - by rewrite app_nil_r.
    - by rewrite Hperm. }
  simpl. rewrite !(count_tag_perm _ _ _ Hperm).
  split; [done|]. split; [done|]. split; [done|].
  rewrite Hlen. by apply count_tag_total.
Qed.

Lemma statistics_partition_witness :
  exists st w' t,
    main app_dir [2; 0; 1] ["600519&Kweichow Moutai"; "000001"; "300750&CATL"]
      serving_world = (Ok st, w', t)
    /\ total st = 3 /\ total st = success st + fail st.
Proof.
  destruct (statistics_partition app_dir [2; 0; 1]
              ["600519&Kweichow Moutai"; "000001"; "300750&CATL"] serving_world)
    as (outs & st & w' & t & _ & Hmain & Htotal & _ & _ & Hsum).
  - simpl. apply perm_trans with [0; 2; 1]; [apply perm_swap|].
    apply perm_skip, perm_swap.
  - exists st, w', t. split; [exact Hmain|]. split; [exact Htotal|exact Hsum].
Defined.

(** ** Independence of the order of arrival *)

Lemma tally_swap stats x y done w :
  tally stats (Ok x :: Ok y :: done) w = tally stats (Ok y :: Ok x :: done) w.
Proof.
  rewrite (tally_cons stats x), (tally_cons stats y).
  destruct (stats !! status x) as [vx|] eqn:Hx;
    destruct (stats !! status y) as [vy|] eqn:Hy;
    rewrite ?tally_cons, ?lookup_insert; repeat case_decide;
    rewrite ?Hx, ?Hy; try congruence.
  by rewrite insert_insert_ne.
Qed.

Lemma tally_perm outs outs' :
  outs ≡ₚ outs' ->
  forall stats w, tally stats (Ok <$> outs) w = tally stats (Ok <$> outs') w.
Proof.
  induction 1 as [|o l l' _ IH|x y l|l1 l2 l3 _ IH1 _ IH2]; intros stats w.
  - done.
  - rewrite !fmap_cons, !tally_cons. by destruct (stats !! status o).
  - rewrite !fmap_cons. apply tally_swap.
  - by rewrite IH1.
Qed.

(** C7. The aggregation of a list of Outcomes and of any permutation of it
    give the same result; so do the Outcomes of a permuted list of items, when
    each item keeps its own Outcome; and [main] gives the same result for any
    two orders in which the futures complete. *)
Theorem aggregation_order_independent :
  (forall n outs outs' w,
      outs ≡ₚ outs' ->
      aggregate n (Ok <$> outs) w = aggregate n (Ok <$> outs') w)
  /\ (forall (worker : string -> outcome) items items' w,
        items ≡ₚ items' ->
        aggregate (length items) (Ok <$> (worker <$> items)) w
        = aggregate (length items') (Ok <$> (worker <$> items')) w)
  /\ (forall base order order' items w,
        order ≡ₚ seq 0 (length items) ->
        order' ≡ₚ seq 0 (length items) ->
        main base order items w = main base order' items w).
Proof.
  assert (forall n outs outs' w,
             outs ≡ₚ outs' ->
             aggregate n (Ok <$> outs) w = aggregate n (Ok <$> outs') w) as Hagg.
  { intros n outs outs' w Hperm. unfold aggregate, bind.
    by rewrite (tally_perm _ _ Hperm). }
  split; [exact Hagg|]. split.
  - intros worker items items' w Hperm.
    rewrite (Permutation_length Hperm). apply Hagg. by rewrite Hperm.
  - intros base order order' items w Horder Horder'.
    destruct (submit_all_sound base items w) as (outs & w' & t & Hpool & Hsound).
    pose proof (Forall2_length _ _ _ Hsound) as Hlen.
    rewrite !(main_aggregate _ _ _ _ _ _ _ Hpool).
    rewrite (Hagg _ (as_completed order outs) (as_completed order' outs)); [done|].
    rewrite !as_completed_perm; [done|by rewrite <- Hlen..].
Qed.

Lemma aggregation_order_independent_witness :
  aggregate 3 (Ok <$> three_outcomes) blank_world
  = aggregate 3 (Ok <$> rev three_outcomes) blank_world
  /\ main app_dir [0; 1] ["600519&Kweichow Moutai"; "000001"] serving_world
     = main app_dir [1; 0] ["600519&Kweichow Moutai"; "000001"] serving_world.
Proof.
  destruct aggregation_order_independent as (Hlists & _ & Hmain).
  split.
  - apply Hlists. apply Permutation_rev.
  - apply Hmain; simpl; [reflexivity|apply perm_swap].
Defined.

(** * Further properties of the worker *)

(** ** The budget of a call *)

(** [jittered] says what it should about every fetch and every jitter
    sleep of the trace. *)
Lemma jittered_spec t :
  jittered t ->
  (forall pre s post,
     t = pre ++ Fetch s :: post -> exists pre' d, pre = pre' ++ [Jitter d])
  /\ (forall pre d post,
        t = pre ++ Jitter d :: post -> exists s post', post = Fetch s :: post').
Proof.
  induction 1 as [|d0 s0 t _ [IHf IHj]|e t Hj Hf _ [IHf IHj]]; split;
    intros pre x post Heq.
  - by destruct pre.
  - by destruct pre.
  - destruct pre as [|e1 [|e2 pre]]; simplify_eq/=.
    + by exists [], d0.
    + destruct (IHf pre x post) as (pre' & d & ->); [done|].
      by exists (Jitter d0 :: Fetch s0 :: pre'), d.
  - destruct pre as [|e1 [|e2 pre]]; simplify_eq/=.
    + by exists s0, t.
    + by apply (IHj pre x post).
  - destruct pre as [|e1 pre]; simplify_eq/=.
    destruct (IHf pre x post) as (pre' & d & ->); [done|].
    by eexists (_ :: pre'), d.
  - destruct pre as [|e1 pre]; simplify_eq/=.
    by apply (IHj pre x post).
Qed.

Lemma jittered_app t1 t2 : jittered t1 -> jittered t2 -> jittered (t1 ++ t2).
Proof.
  induction 1; intros Ht2; simpl; [done| |].
  - apply jittered_fetch. auto.
  - apply jittered_other; auto.
Qed.

Section Budget.

Variables s p c : string.

(** One turn: one jitter, one fetch for [s], at most one write, at most one
    backoff, and a backoff only before the last turn. *)
Lemma attempt_step_budget n w r w' t :
  attempt_step s p c n w r w' t ->
  count is_jitter t = 1 /\ count is_fetch t = 1 /\ count is_to_csv t <= 1
  /\ (forall s', Fetch s' ∈ t -> s' = s)
  /\ (count is_backoff t = 0
      \/ (count is_backoff t = 1 /\ n <> max_retries - 1 /\ r = None)).
Proof.
  destruct 1 as [| |d ev w' Hn Heff _|d ev z w' Hn Heff _];
    try (apply disk_effect_events in Heff as [-> | ->]); simpl;
    (split; [done|split; [done|split; [lia|split]]]);
    try (intros s' Hin;
         repeat (apply elem_of_cons in Hin as [Hin|Hin]; [by simplify_eq|]);
         by apply elem_of_nil in Hin);
    auto.
Qed.

Lemma loop_run_budget range w r w' t :
  loop_run s p c range w r w' t ->
  count is_fetch t <= length range
  /\ count is_jitter t = count is_fetch t
  /\ count is_to_csv t <= count is_fetch t
  /\ (forall s', Fetch s' ∈ t -> s' = s).
Proof.
  induction 1 as [|n rest w o w' t Hstep|n rest w w1 t1 r w2 t2 Hstep _ IH]; simpl.
  - split; [done|]. split; [done|]. split; [done|]. by intros s' ?%elem_of_nil.
  - apply attempt_step_budget in Hstep as (Hj & Hf & Hw & Hs & _).
    rewrite Hj, Hf. split; [lia|]. split; [done|]. by split.
  - apply attempt_step_budget in Hstep as (Hj & Hf & Hw & Hs & _).
    destruct IH as (IHf & IHj & IHw & IHs).
    rewrite !count_app. split; [lia|]. split; [lia|]. split; [lia|].
    intros s'. rewrite elem_of_app. intros [?|?]; auto.
Qed.

(** One turn starts with its jitter sleep and its fetch, and has no
    other. *)
Lemma attempt_step_jittered n w r w' t :
  attempt_step s p c n w r w' t -> jittered t.
Proof.
  destruct 1 as [| |d ev w' Hn Heff _|d ev z w' Hn Heff _];
    try (apply disk_effect_events in Heff as [-> | ->]); simpl;
    apply jittered_fetch; repeat (apply jittered_other; [done|done|]);
    apply jittered_nil.
Qed.

Lemma loop_run_jittered range w r w' t :
  loop_run s p c range w r w' t -> jittered t.
Proof.
  induction 1 as [|n rest w o w' t Hstep|n rest w w1 t1 r w2 t2 Hstep _ IH].
  - constructor.
  - by eapply attempt_step_jittered.
  - apply jittered_app; [by eapply attempt_step_jittered|done].
Qed.

Lemma loop_run_backoffs range w r w' t :
  loop_run s p c range w r w' t ->
  forall k, range = seq k (max_retries - k) ->
    count is_backoff t <= length range - 1.
Proof.
  induction 1 as [|n rest w o w' t Hstep|n rest w w1 t1 r w2 t2 Hstep Hrest IH];
    intros k Hrange; simpl.
  - done.
  - apply attempt_step_budget in Hstep as (_ & _ & _ & _ & [->|(_ & _ & ?)]); [lia|done].
  - apply seq_cons_inv in Hrange as (-> & m & Hm & ->).
    specialize (IH (S k)). rewrite length_seq in *. rewrite count_app.
    apply attempt_step_budget in Hstep as (_ & _ & _ & _ & [->|(-> & Hk & _)]).
    + destruct m as [|m].
      * inversion Hrest; subst. simpl. lia.
      * assert (count is_backoff t2 <= S m - 1) by (apply IH; f_equal; lia). lia.
    + destruct m as [|m]; [unfold max_retries in *; lia|].
      assert (count is_backoff t2 <= S m - 1) by (apply IH; f_equal; lia). lia.
Qed.

End Budget.

(** ** A call costs at most three fetches *)

(** X1. Every call of the worker makes at most [max_retries] = 3 fetches,
    each for the symbol of the code it reports, and calls [to_csv] at most
    once per fetch.  Each fetch comes right after a jitter sleep, the event
    just before it in the trace, and every jitter sleep is followed at once
    by a fetch: there are as many jitter sleeps as fetches, one before
    each. *)
Theorem call_budget base item w :
  exists o w' t,
    download_one base item w = (Ok o, w', t)
    /\ count is_fetch t <= max_retries
    /\ count is_jitter t = count is_fetch t
    /\ count is_to_csv t <= count is_fetch t
    /\ (forall s, Fetch s ∈ t -> s = symbol_of (code o))
    /\ (forall pre s post,
          t = pre ++ Fetch s :: post ->
          exists pre' d, pre = pre' ++ [Jitter d])
    /\ (forall pre d post,
          t = pre ++ Jitter d :: post ->
          exists s post', post = Fetch s :: post').
Proof.
  destruct (download_one_cases base item w)
    as [[_ ->]|[(c & name & _ & _ & ->)|(c & name & r & w' & t & _ & _ & _ & Hrun & ->)]].
  - eexists _, _, _. split; [done|]. simpl.
    split; [lia|]. split; [done|]. split; [lia|].
    split; [by intros s ?%elem_of_nil|]. apply jittered_spec, jittered_nil.
  - eexists _, _, _. split; [done|]. simpl.
    split; [lia|]. split; [done|]. split; [lia|].
    split; [by intros s ?%elem_of_nil|]. apply jittered_spec, jittered_nil.
  - eexists _, _, _. split; [done|].
    destruct (loop_run_budget _ _ _ _ _ _ _ _ Hrun) as (Hf & Hj & Hw & Hs).
    split; [done|]. split; [done|]. split; [done|].
    split; [|by eapply jittered_spec, loop_run_jittered].
    assert (code (default (Outcome "error" c) r) = c) as ->; [|done].
    destruct r as [o|]; [|done]. simpl. by apply loop_run_outcome in Hrun as [? _].
Qed.

(** X2. Every call of the worker sleeps at most two backoffs, and each of
    them lasts from 5 to 12 seconds. *)
Theorem backoff_bounds base item w :
  exists o w' t,
    download_one base item w = (Ok o, w', t)
    /\ count is_backoff t <= 2
    /\ (forall z, Backoff z ∈ t -> (5 <= z <= 12)%Z).
Proof.
  destruct (download_one_cases base item w)
    as [[_ ->]|[(c & name & _ & _ & ->)|(c & name & r & w' & t & _ & _ & Hloop & Hrun & ->)]].
  - eexists _, _, _. split; [done|]. split; [simpl; lia|]. by intros z ?%elem_of_nil.
  - eexists _, _, _. split; [done|]. split; [simpl; lia|]. by intros z ?%elem_of_nil.
  - eexists _, _, _. split; [done|]. split.
    + by apply (loop_run_backoffs _ _ _ _ _ _ _ _ Hrun 0).
    + intros z Hz.
      apply (for_range_backoff (symbol_of c) (out_path_of base c name) c
               (seq 0 max_retries) w).
      by rewrite Hloop.
Qed.

(** ** Replies without rows *)

Lemma hd_lookup {A} (d x : A) (l : list A) : l !! 0 = Some x -> hd d l = x.
Proof. destruct l; simpl; congruence. Qed.

Lemma for_range_rowless s p c m :
  forall k w,
    k + m = max_retries ->
    (forall i, i < m -> exists r, remote w !! i = Some r /\ no_rows r = true) ->
    exists w' t,
      for_range (attempt_body s p c) (seq k m) w
      = (Ok (match m with 0 => None | _ => Some (Outcome "empty" c) end), w', t)
      /\ fs w' = fs w /\ remote w' = drop m (remote w) /\ disk w' = disk w
      /\ count is_fetch t = m /\ count is_backoff t = 0
      /\ count is_caught t = 0 /\ count is_to_csv t = 0.
Proof.
  induction m as [|m IH]; intros k w Hk Hrows.
  - exists w, []. by repeat split.
  - destruct (Hrows 0) as (r0 & Hr0 & Hno); [lia|].
    destruct (attempt_body_rowless s p c k w) as (d & w1 & Hturn & Hfs & Hrem & Hdisk).
    { by rewrite (hd_lookup _ _ _ Hr0). }
    cbn [seq for_range]. unfold bind at 1. rewrite Hturn.
    destruct m as [|m].
    + replace (k =? max_retries - 1) with true by (symmetry; apply Nat.eqb_eq; lia).
      eexists _, _. split; [reflexivity|].
      rewrite Hrem. split; [done|]. split; [by destruct (remote w)|]. by repeat split.
    + replace (k =? max_retries - 1) with false by (symmetry; apply Nat.eqb_neq; lia).
      destruct (IH (S k) w1) as (w2 & t2 & -> & Hfs2 & Hrem2 & Hdisk2 & Hc2);
        [lia| |].
      { intros i Hi. destruct (Hrows (S i)) as (r & Hr & ?); [lia|].
        exists r. split; [|done]. rewrite Hrem. by destruct (remote w). }
      eexists _, _. split; [reflexivity|].
      rewrite Hfs2, Hrem2, Hdisk2, Hrem. split; [done|].
      split; [by destruct (remote w)|]. split; [done|].
      destruct Hc2 as (Hf2 & Hb2 & Hg2 & Hw2). simpl.
      rewrite Hf2, Hb2, Hg2, Hw2. by repeat split.
Qed.

(** X3. When the artifact is not fresh and the remote service answers the
    three fetches without rows ([None] or an empty frame) and without raising,
    the Outcome is empty after exactly three fetches; the worker sleeps no
    backoff between them, catches nothing, writes nothing and leaves the file
    system as it was. *)
Theorem rowless_replies_give_empty base item c name w r1 r2 r3 rest :
  Str.split "&" (Some 1) item = [c; name] ->
  is_fresh w (out_path_of base c name) = false ->
  remote w = r1 :: r2 :: r3 :: rest ->
  no_rows r1 = true -> no_rows r2 = true -> no_rows r3 = true ->
  exists w' t,
    download_one base item w = (Ok (Outcome "empty" c), w', t)
    /\ fs w' = fs w /\ remote w' = rest
    /\ count is_fetch t = 3 /\ count is_backoff t = 0
    /\ count is_caught t = 0 /\ count is_to_csv t = 0.
Proof.
  intros Hsplit Hstale Hrem H1 H2 H3.
  destruct (for_range_rowless (symbol_of c) (out_path_of base c name) c 3 0 w)
    as (w' & t & Hloop & Hfs & Hrem' & _ & Hcounts); [done| |].
  { rewrite Hrem. intros [|[|[|i]]] Hi; [by eexists..|lia]. }
  destruct (download_one_cases base item w)
    as [[Hm _]|[(c' & name' & Hs & Hf & _)|(c' & name' & r & w2 & t2 & Hs & _ & Hloop' & _ & ->)]].
  - pose proof (StrFacts.split_absent "&" (Some 1) item Hm). congruence.
  - replace c' with c in * by congruence.
    replace name' with name in * by congruence. congruence.
  - replace c' with c in * by congruence.
    replace name' with name in * by congruence.
    change (seq 0 max_retries) with (seq 0 3) in Hloop'.
    rewrite Hloop in Hloop'. simplify_eq.
    exists w2, t2. split; [done|]. split; [done|].
    split; [by rewrite Hrem', Hrem|done].
Qed.

Lemma rowless_replies_give_empty_witness :
  exists w' t,
    download_one app_dir "000002&Vanke" rowless_world
    = (Ok (Outcome "empty" "000002"), w', t)
    /\ fs w' = fs rowless_world /\ remote w' = []
    /\ count is_fetch t = 3 /\ count is_backoff t = 0
    /\ count is_caught t = 0 /\ count is_to_csv t = 0.
Proof.
  apply (rowless_replies_give_empty app_dir "000002&Vanke" "000002" "Vanke"
           rowless_world NoFrame (Frame (Frame_ true true "")) NoFrame []);
    reflexivity.
Defined.

(** ** A retry that succeeds *)

Lemma for_range_reaches s p c df rest :
  forall pre k w,
    k + length pre < max_retries ->
    Forall (fun r => r = Fails \/ no_rows r = true) pre ->
    remote w = pre ++ Frame df :: rest ->
    empty df = false -> tidy df = true ->
    hd Written (disk w) = Written ->
    exists w' t0,
      for_range (attempt_body s p c) (seq k (max_retries - k)) w
      = (Ok (Some (Outcome "success" c)), w', t0 ++ [ToCsv p])
      /\ fs w' = <[p := File (clock w') (encoded df)]> (fs w)
      /\ remote w' = rest
      /\ count is_fetch (t0 ++ [ToCsv p]) = length pre + 1
      /\ count is_to_csv (t0 ++ [ToCsv p]) = 1.
Proof.
  induction pre as [|r pre IH]; intros k w Hk Hpre Hrem He Ht Hd.
  - destruct (attempt_body_stored s p c k w df) as (d & w' & Hturn & Hfs & Hrem' & _);
      [by rewrite Hrem|done..|].
    destruct (max_retries - k) as [|m] eqn:Hm; [simpl in Hk; lia|].
    cbn [seq for_range]. unfold bind at 1. rewrite Hturn.
    exists w', [Jitter d; Fetch s]. split; [done|]. split; [done|].
    split; [by rewrite Hrem', Hrem|done].
  - inversion Hpre as [|? ? Hr Hpre']; subst. simpl in Hk.
    assert (exists w1 t1,
               attempt_body s p c k w = (Ok None, w1, t1)
               /\ fs w1 = fs w /\ remote w1 = pre ++ Frame df :: rest
               /\ disk w1 = disk w
               /\ count is_fetch t1 = 1 /\ count is_to_csv t1 = 0)
      as (w1 & t1 & Hturn & Hfs1 & Hrem1 & Hdisk1 & Hf1 & Hw1).
    { destruct Hr as [->|Hno].
      - destruct (attempt_body_fails s p c k w) as (d & z & w1 & Hturn & ? & Hrem1 & ?);
          [by rewrite Hrem|].
        replace (k =? max_retries - 1) with false in Hturn
          by (symmetry; apply Nat.eqb_neq; lia).
        eexists _, _. split; [exact Hturn|]. rewrite Hrem1, Hrem. by repeat split.
      - destruct (attempt_body_rowless s p c k w) as (d & w1 & Hturn & ? & Hrem1 & ?);
          [by rewrite Hrem|].
        replace (k =? max_retries - 1) with false in Hturn
          by (symmetry; apply Nat.eqb_neq; lia).
        eexists _, _. split; [exact Hturn|]. rewrite Hrem1, Hrem. by repeat split. }
    destruct (IH (S k) w1) as (w' & t0 & Hloop & Hfs & Hrem' & Hf & Hw);
      [lia|done|done|done|done|by rewrite Hdisk1|].
    destruct (max_retries - k) as [|m] eqn:Hm; [lia|].
    replace (max_retries - S k) with m in Hloop by lia.
    cbn [seq for_range]. unfold bind at 1. rewrite Hturn, Hloop.
    exists w', (t1 ++ t0). rewrite <- app_assoc. split; [done|].
    split; [by rewrite Hfs, Hfs1|]. split; [done|].
    rewrite !count_app in *. simpl in *. lia.
Qed.

(** X4. When the artifact is not fresh, fewer than three replies of the
    remote service fail (raise, or come without rows), the next one is a frame
    with rows that normalises, and the disk takes the write, the Outcome is
    success: one fetch per failed reply and one more, a single call of
    [to_csv], which is the last event, and the artifact holds the whole
    encoding of that frame, stamped with the clock at the return. *)
Theorem retry_reaches_good_reply base item c name w pre df rest :
  Str.split "&" (Some 1) item = [c; name] ->
  is_fresh w (out_path_of base c name) = false ->
  remote w = pre ++ Frame df :: rest ->
  length pre < max_retries ->
  Forall (fun r => r = Fails \/ no_rows r = true) pre ->
  empty df = false -> tidy df = true ->
  hd Written (disk w) = Written ->
  exists w' t0,
    download_one base item w
    = (Ok (Outcome "success" c), w', t0 ++ [ToCsv (out_path_of base c name)])
    /\ fs w' = <[out_path_of base c name := File (clock w') (encoded df)]> (fs w)
    /\ remote w' = rest
    /\ count is_fetch t0 = length pre + 1
    /\ count is_to_csv t0 = 0.
Proof.
  intros Hsplit Hstale Hrem Hlen Hpre He Ht Hd.
  destruct (for_range_reaches (symbol_of c) (out_path_of base c name) c df rest
              pre 0 w) as (w' & t0 & Hloop & Hfs & Hrem' & Hf & Hw); try done.
  destruct (download_one_cases base item w)
    as [[Hm _]|[(c' & name' & Hs & Hf' & _)|(c' & name' & r & w2 & t2 & Hs & _ & Hloop' & _ & ->)]].
  - pose proof (StrFacts.split_absent "&" (Some 1) item Hm). congruence.
  - replace c' with c in * by congruence.
    replace name' with name in * by congruence. congruence.
  - replace c' with c in * by congruence.
    replace name' with name in * by congruence.
    change (max_retries - 0) with max_retries in Hloop.
    rewrite Hloop in Hloop'. simplify_eq.
    exists w2, t0. split; [done|]. split; [done|]. split; [done|].
    rewrite !count_app in *. simpl in *. lia.
Qed.

Lemma retry_reaches_good_reply_witness :
  exists w' t0,
    download_one app_dir "600519&Kweichow Moutai" flaky_world
    = (Ok (Outcome "success" "600519"), w', t0 ++ [ToCsv moutai_path])
    /\ fs w' = <[moutai_path := File (clock w') (encoded two_bars)]> (fs flaky_world)
    /\ remote w' = []
    /\ count is_fetch t0 = 3
    /\ count is_to_csv t0 = 0.
Proof.
  apply (retry_reaches_good_reply app_dir "600519&Kweichow Moutai" "600519"
           "Kweichow Moutai" flaky_world [Fails; NoFrame] two_bars []);
    try reflexivity.
  - simpl. unfold max_retries. lia.
  - constructor; [left; reflexivity|].
    constructor; [right; reflexivity|]. constructor.
Defined.

(** ** A future that cannot be counted *)

Lemma initial_stats_dom k : is_Some (initial_stats !! k) <-> k ∈ TAGS.
Proof.
  unfold initial_stats, TAGS. rewrite !elem_of_cons, elem_of_nil.
  repeat (rewrite lookup_insert; case_decide; [subst; split; [tauto|eauto]|]).
  rewrite lookup_empty. split; [by intros [? ?]|]. intros [|[|[|[|[]]]]]; congruence.
Qed.

(** The loop of lines 139-142 keeps the keys of [stats] while it counts. *)
Lemma tally_prefix good :
  forall stats rest w,
    (forall k, is_Some (stats !! k) <-> k ∈ TAGS) ->
    Forall (fun o => status o ∈ TAGS) good ->
    exists stats',
      tally stats ((Ok <$> good) ++ rest) w = tally stats' rest w
      /\ (forall k, is_Some (stats' !! k) <-> k ∈ TAGS).
Proof.
  induction good as [|o good IH]; intros stats rest w Hdom Hgood.
  - by exists stats.
  - inversion Hgood as [|? ? Ho Hgood']; subst.
    destruct (proj2 (Hdom (status o)) Ho) as [v Hv].
    rewrite fmap_cons. cbn [app]. rewrite tally_cons, Hv.
    apply IH; [|done].
    intros k. rewrite lookup_insert. case_decide; [|done].
    subst k. split; [done|eauto].
Qed.

(** X5. The aggregation of [main] has no guard of its own: when the futures
    that arrive first hold Outcomes with the four tags and the next one holds
    an exception, that exception leaves the loop; when the next one holds a
    dictionary with any other status, [KeyError] does.  No statistics are
    returned in either case. *)
Theorem aggregation_aborts n good rest w :
  Forall (fun o => status o ∈ TAGS) good ->
  (forall e, aggregate n ((Ok <$> good) ++ Exc e :: rest) w = (Exc e, w, []))
  /\ (forall o, status o ∉ TAGS ->
        aggregate n ((Ok <$> good) ++ Ok o :: rest) w = (Exc KeyError, w, [])).
Proof.
  intros Hgood. split.
  - intros e. unfold aggregate. unfold bind at 1.
    destruct (tally_prefix good initial_stats (Exc e :: rest) w initial_stats_dom Hgood)
      as (stats & -> & _).
    reflexivity.
  - intros o Ho. unfold aggregate. unfold bind at 1.
    destruct (tally_prefix good initial_stats (Ok o :: rest) w initial_stats_dom Hgood)
      as (stats & -> & Hdom).
    rewrite tally_cons.
    destruct (stats !! status o) as [v|] eqn:Hv; [|done].
    destruct Ho. apply Hdom. eauto.
Qed.

Lemma aggregation_aborts_witness :
  aggregate 4 ((Ok <$> three_outcomes) ++ [Exc OSError]) blank_world
  = (Exc OSError, blank_world, [])
  /\ aggregate 4 ((Ok <$> three_outcomes) ++ [Ok (Outcome "timeout" "000002")])
       blank_world
     = (Exc KeyError, blank_world, []).
Proof.
  assert (Forall (fun o => status o ∈ TAGS) three_outcomes) as Hgood.
  { unfold three_outcomes, TAGS.
    constructor; [left|]. constructor; [do 3 right; left|].
    constructor; [right; left|]. constructor. }
  destruct (aggregation_aborts 4 three_outcomes [] blank_world Hgood) as [Hexc Hkey].
  split; [apply Hexc|]. apply Hkey.
  unfold TAGS. intros Hin.
  repeat (apply elem_of_cons in Hin as [Hin|Hin]; [discriminate Hin|]).
  by apply elem_of_nil in Hin.
Defined.

(** ** The tag of a call is decided at its end *)

Section LastTurn.

Variables s p c : string.

(** A turn whose reply raises or has no rows. *)
Lemma attempt_body_unlucky n w r :
  hd Fails (remote w) = r ->
  r = Fails \/ no_rows r = true ->
  exists w' t,
    attempt_body s p c n w
    = (Ok (if n =? max_retries - 1
           then Some (Outcome (if no_rows r then "empty" else "error") c)
           else None), w', t)
    /\ fs w' = fs w /\ remote w' = tl (remote w) /\ disk w' = disk w
    /\ count is_fetch t = 1 /\ count is_to_csv t = 0
    /\ count is_caught t = (if no_rows r then 0 else 1)
    /\ count is_backoff t
       = (if n =? max_retries - 1 then 0 else if no_rows r then 0 else 1).
Proof.
  intros Hr [->|Hno].
  - destruct (attempt_body_fails s p c n w Hr) as (d & z & w' & -> & Hfs & Hrem & Hd).
    eexists _, _. split; [reflexivity|]. simpl.
    by destruct (n =? 2).
  - destruct (attempt_body_rowless s p c n w) as (d & w' & -> & Hfs & Hrem & Hd);
      [by rewrite Hr|].
    rewrite Hno. eexists _, _. split; [reflexivity|]. simpl.
    by destruct (n =? 2).
Qed.

End LastTurn.

(** X15. When the artifact is not fresh and none of the three replies
    brings rows (each raises or comes without rows), the tag follows the last
    reply alone: error when it raised, empty when it had no rows.  The
    worker fetches three times, sleeps one backoff for each of the first two
    replies that raised, writes nothing and leaves the file system as it
    was. *)
Theorem outcome_follows_last_turn base item c name w r1 r2 r3 rest :
  Str.split "&" (Some 1) item = [c; name] ->
  is_fresh w (out_path_of base c name) = false ->
  remote w = r1 :: r2 :: r3 :: rest ->
  (r1 = Fails \/ no_rows r1 = true) ->
  (r2 = Fails \/ no_rows r2 = true) ->
  (r3 = Fails \/ no_rows r3 = true) ->
  exists w' t,
    download_one base item w
    = (Ok (Outcome (if no_rows r3 then "empty" else "error") c), w', t)
    /\ fs w' = fs w /\ remote w' = rest
    /\ count is_fetch t = 3 /\ count is_to_csv t = 0
    /\ count is_backoff t
       = (if no_rows r1 then 0 else 1) + (if no_rows r2 then 0 else 1).
Proof.
  intros Hsplit Hstale Hrem H1 H2 H3.
  remember (symbol_of c) as s eqn:Hs0.
  remember (out_path_of base c name) as p eqn:Hp0.
  destruct (attempt_body_unlucky s p c 0 w r1) as (w1 & t1 & E1 & F1 & R1 & _ & C1);
    [by rewrite Hrem|done|].
  rewrite Hrem in R1. simpl in R1.
  destruct (attempt_body_unlucky s p c 1 w1 r2) as (w2 & t2 & E2 & F2 & R2 & _ & C2);
    [by rewrite R1|done|].
  rewrite R1 in R2. simpl in R2.
  destruct (attempt_body_unlucky s p c 2 w2 r3) as (w3 & t3 & E3 & F3 & R3 & _ & C3);
    [by rewrite R2|done|].
  rewrite R2 in R3. simpl in R3.
  assert (for_range (attempt_body s p c) (seq 0 max_retries) w
          = (Ok (Some (Outcome (if no_rows r3 then "empty" else "error") c)), w3,
             t1 ++ t2 ++ t3)) as Hloop.
  { change (0 =? max_retries - 1) with false in E1.
    change (1 =? max_retries - 1) with false in E2.
    change (2 =? max_retries - 1) with true in E3.
    cbn [max_retries seq for_range]. unfold bind at 1. rewrite E1.
    cbn -[attempt_body]. unfold bind at 1. rewrite E2.
    cbn -[attempt_body]. unfold bind at 1. rewrite E3.
    cbn -[attempt_body]. by rewrite app_nil_r. }
  destruct (download_one_cases base item w)
    as [[Hm _]|[(c' & name' & Hs & Hf & _)|(c' & name' & r & w' & t & Hs & _ & Hloop' & _ & ->)]].
  - pose proof (StrFacts.split_absent "&" (Some 1) item Hm). congruence.
  - replace c' with c in * by congruence.
    replace name' with name in * by congruence. congruence.
  - replace c' with c in * by congruence.
    replace name' with name in * by congruence.
    rewrite <- Hs0, <- Hp0, Hloop in Hloop'. simplify_eq.
    eexists _, _. split; [reflexivity|].
    split; [by rewrite F3, F2, F1|]. split; [done|].
    rewrite !count_app.
    change (0 =? max_retries - 1) with false in C1.
    change (1 =? max_retries - 1) with false in C2.
    change (2 =? max_retries - 1) with true in C3.
    destruct C1 as (-> & -> & _ & ->), C2 as (-> & -> & _ & ->),
      C3 as (-> & -> & _ & ->).
    repeat split; lia.
Qed.

Lemma outcome_follows_last_turn_witness :
  exists w' t,
    download_one app_dir "000002&Vanke" moody_world
    = (Ok (Outcome "error" "000002"), w', t)
    /\ fs w' = fs moody_world /\ remote w' = []
    /\ count is_fetch t = 3 /\ count is_to_csv t = 0
    /\ count is_backoff t = 1.
Proof.
  apply (outcome_follows_last_turn app_dir "000002&Vanke" "000002" "Vanke"
           moody_world NoFrame Fails Fails []);
    first [reflexivity | left; reflexivity | right; reflexivity].
Defined.

(** X16. A call answers exists exactly when the item is well formed and
    its artifact is on disk, younger than 3600 seconds and larger than 1000
    bytes: the retry loop never gives that tag. *)
Theorem exists_iff_fresh base item w :
  exists o w' t,
    download_one base item w = (Ok o, w', t)
    /\ (status o = "exists"
        <-> exists c name f,
              Str.split "&" (Some 1) item = [c; name]
              /\ fs w !! out_path_of base c name = Some f
              /\ PrimFloat.ltb (clock w - mtime f) DATA_EXPIRY_SECONDS = true
              /\ 1000 < size_of f).
Proof.
  assert (forall c name,
             is_fresh w (out_path_of base c name) = true
             <-> exists f,
                   fs w !! out_path_of base c name = Some f
                   /\ PrimFloat.ltb (clock w - mtime f) DATA_EXPIRY_SECONDS = true
                   /\ 1000 < size_of f) as Hfresh.
  { intros c name. unfold is_fresh, fresh.
    destruct (fs w !! out_path_of base c name) as [f|]; split.
    - intros [? ?%Nat.ltb_lt]%andb_true_iff. by exists f.
    - intros (f' & ? & ? & ?). simplify_eq.
      apply andb_true_iff. split; [done|by apply Nat.ltb_lt].
    - done.
    - by intros (f' & ? & _). }
  destruct (download_one_cases base item w)
    as [[Hm ->]|[(c & name & Hs & Hf & ->)|(c & name & r & w' & t & Hs & Hf & _ & Hrun & ->)]];
    eexists _, _, _; (split; [reflexivity|]); simpl.
  - split; [done|]. intros (c & name & f & Hs & _).
    pose proof (StrFacts.split_absent "&" (Some 1) item Hm). congruence.
  - split; [|done]. intros _.
    apply Hfresh in Hf as (f & ? & ? & ?). by exists c, name, f.
  - split.
    + destruct r as [o|]; [|done]. simpl.
      apply loop_run_outcome in Hrun as [_ Hst]. intros Heq. rewrite Heq in Hst.
      repeat (apply elem_of_cons in Hst as [Hst|Hst]; [done|]).
      by apply elem_of_nil in Hst.
    + intros (c' & name' & f & Hs' & Hfs & Hage & Hsize).
      replace c' with c in * by congruence.
      replace name' with name in * by congruence.
      assert (is_fresh w (out_path_of base c name) = true) by (apply Hfresh; eauto).
      congruence.
Qed.

(** * Properties of the list of symbols *)

Module ListerFacts.

Import Lister.

(** ** Padding with zeros *)

Lemma len_append (a b : string) : len (a +:+ b) = len a + len b.
Proof.
  induction a as [|x a IH]; [done|].
  rewrite PathFacts.append_cons. cbn [len]. rewrite IH. lia.
Qed.

Lemma len_zeros n : len (Str.replicate n "0") = n.
Proof. induction n as [|n IH]; [done|]. cbn [Str.replicate len]. by rewrite IH. Qed.

Lemma sign_counts x :
  Ascii.eqb x "+" || Ascii.eqb x "-" = true -> continues x = false.
Proof.
  intros [H|H]%orb_true_iff; apply Ascii.eqb_eq in H; by subst.
Qed.

Lemma len_zfill width s : len (zfill width s) = Nat.max width (len s).
Proof.
  unfold zfill. destruct (width <=? len s) eqn:Hw.
  - apply Nat.leb_le in Hw. lia.
  - apply Nat.leb_gt in Hw. destruct s as [|x rest].
    + rewrite len_zeros. simpl. lia.
    + destruct (Ascii.eqb x "+" || Ascii.eqb x "-") eqn:Hsign.
      * cbn [len] in *. rewrite len_append, len_zeros.
        rewrite (sign_counts x Hsign) in *. lia.
      * rewrite len_append, len_zeros. lia.
Qed.

(** X6. [zfill] pads to the width and never shortens: the result has
    max(width, len s) characters, counted as Python counts them, and padding
    twice is padding once. *)
Theorem zfill_length width s :
  len (zfill width s) = Nat.max width (len s)
  /\ zfill width (zfill width s) = zfill width s.
Proof.
  split; [apply len_zfill|].
  unfold zfill at 1. rewrite len_zfill.
  by replace (width <=? Nat.max width (len s)) with true
    by (symmetry; apply Nat.leb_le; lia).
Qed.

(** ** The items built from the EM tables *)

Lemma prefix_app (p s : string) :
  String.prefix p s = true -> exists rest, s = p +:+ rest.
Proof.
  revert s. induction p as [|a p IH]; intros s; [by exists s|].
  destruct s as [|b s]; simpl; [done|].
  destruct (ascii_dec a b) as [<-|]; [|done].
  intros [rest ->]%IH. by exists rest.
Qed.

Lemma mem_append c (a b : string) :
  Str.mem c (a +:+ b) = Str.mem c a || Str.mem c b.
Proof.
  induction a as [|x a IH]; [done|].
  rewrite PathFacts.append_cons. cbn [Str.mem]. rewrite IH. by rewrite orb_assoc.
Qed.

Lemma mem_zeros n : Str.mem "&" (Str.replicate n "0") = false.
Proof. induction n as [|n IH]; [done|]. cbn [Str.replicate Str.mem]. by rewrite IH. Qed.

Lemma mem_zfill width s :
  Str.mem "&" s = false -> Str.mem "&" (zfill width s) = false.
Proof.
  intros Hs. unfold zfill. destruct (width <=? len s); [done|].
  destruct s as [|x rest]; [apply mem_zeros|].
  cbn [Str.mem] in Hs. apply orb_false_iff in Hs as [Hx Hrest].
  destruct (Ascii.eqb x "+" || Ascii.eqb x "-").
  - cbn [Str.mem]. by rewrite Hx, mem_append, mem_zeros, Hrest.
  - rewrite mem_append, mem_zeros. cbn [Str.mem]. by rewrite Hx, Hrest.
Qed.

Lemma mem_item (code name : string) : Str.mem "&" (code +:+ "&" +:+ name) = true.
Proof.
  rewrite mem_append. apply orb_true_iff. right.
  change ("&" +:+ name) with (String "&" name). cbn [Str.mem].
  by rewrite Ascii.eqb_refl.
Qed.

(** Among the listed prefixes those of Shanghai are those that start with
    the digit 6. *)
Lemma shanghai_rule code :
  startswith_any valid_prefixes code = true ->
  Str.startswith "6" code
  = startswith_any ["600"; "601"; "603"; "605"; "688"] code.
Proof.
  unfold startswith_any at 1. intros (p & Hin & Hp)%existsb_exists.
  apply prefix_app in Hp as [rest ->].
  unfold valid_prefixes in Hin. simpl in Hin.
  repeat (destruct Hin as [<-|Hin]; [by destruct rest|]).
  destruct Hin.
Qed.

Lemma em_items_elem rows item :
  item ∈ em_items rows
  <-> exists raw name,
        (raw, name) ∈ rows
        /\ startswith_any valid_prefixes (zfill 6 raw) = true
        /\ item = zfill 6 raw +:+ "&" +:+ name.
Proof.
  unfold em_items. rewrite list_elem_of_fmap. split.
  - intros ([code name] & -> & Hin).
    apply list_elem_of_In, filter_In in Hin as [Hin Hvalid].
    apply list_elem_of_In, list_elem_of_fmap in Hin as ([raw name'] & Heq & Hin).
    simpl in *. simplify_eq. by exists raw, name'.
  - intros (raw & name & Hin & Hvalid & ->).
    exists (zfill 6 raw, name). split; [done|].
    apply list_elem_of_In, filter_In. split; [|done].
    apply list_elem_of_In, list_elem_of_fmap. by exists (raw, name).
Qed.

(** X7. The items of lines 61-66 are exactly the rows whose code, padded to
    six characters, starts with one of the listed prefixes, written
    code&name; so every item holds '&' and a code of at least six
    characters. *)
Theorem em_items_spec rows item :
  item ∈ em_items rows
  <-> exists raw name,
        (raw, name) ∈ rows
        /\ startswith_any valid_prefixes (zfill 6 raw) = true
        /\ 6 <= len (zfill 6 raw)
        /\ Str.mem "&" item = true
        /\ item = zfill 6 raw +:+ "&" +:+ name.
Proof.
  rewrite em_items_elem. split.
  - intros (raw & name & Hin & Hvalid & ->). exists raw, name.
    split; [done|]. split; [done|]. split; [rewrite len_zfill; lia|].
    split; [apply mem_item|done].
  - intros (raw & name & Hin & Hvalid & _ & _ & ->). by exists raw, name.
Qed.

(** X8. An item built from a row whose code holds no '&' is accepted by the
    worker: it splits into the padded code and the name, the Outcome carries
    the padded code, every fetch asks for that code with the suffix .SS when
    it starts with 600, 601, 603, 605 or 688 and .SZ otherwise, and every
    write goes to the artifact of that code and name. *)
Theorem listed_item_is_downloadable rows raw name base w :
  (raw, name) ∈ rows ->
  startswith_any valid_prefixes (zfill 6 raw) = true ->
  Str.mem "&" raw = false ->
  zfill 6 raw +:+ "&" +:+ name ∈ em_items rows
  /\ Str.split "&" (Some 1) (zfill 6 raw +:+ "&" +:+ name) = [zfill 6 raw; name]
  /\ exists o w' t,
      download_one base (zfill 6 raw +:+ "&" +:+ name) w = (Ok o, w', t)
      /\ code o = zfill 6 raw
      /\ (forall s, Fetch s ∈ t ->
            s = zfill 6 raw
                +:+ (if startswith_any ["600"; "601"; "603"; "605"; "688"]
                          (zfill 6 raw)
                     then ".SS" else ".SZ"))
      /\ (forall q, ToCsv q ∈ t -> q = out_path_of base (zfill 6 raw) name).
Proof.
  intros Hin Hvalid Hraw.
  pose proof (mem_zfill 6 raw Hraw) as Hcode.
  pose proof (StrFacts.split_first "&" (zfill 6 raw) name Hcode) as Hsplit.
  change (String "&" name) with ("&" +:+ name) in Hsplit.
  split; [apply em_items_elem; by exists raw, name|].
  split; [done|].
  assert (symbol_of (zfill 6 raw)
          = zfill 6 raw
            +:+ (if startswith_any ["600"; "601"; "603"; "605"; "688"] (zfill 6 raw)
                 then ".SS" else ".SZ")) as Hsym.
  { unfold symbol_of. rewrite (shanghai_rule _ Hvalid).
    by destruct (startswith_any ["600"; "601"; "603"; "605"; "688"] (zfill 6 raw)). }
  destruct (download_one_cases base (zfill 6 raw +:+ "&" +:+ name) w)
    as [[Hm _]|[(c & nm & Hs & _ & ->)|(c & nm & r & w' & t & Hs & _ & _ & Hrun & ->)]].
  - pose proof (StrFacts.split_absent "&" (Some 1) _ Hm). congruence.
  - replace c with (zfill 6 raw) in * by congruence.
    eexists _, _, _. split; [done|]. split; [done|].
    split; intros ? ?%elem_of_nil; done.
  - replace c with (zfill 6 raw) in * by congruence.
    replace nm with name in * by congruence.
    eexists _, _, _. split; [done|].
    destruct (loop_run_budget _ _ _ _ _ _ _ _ Hrun) as (_ & _ & _ & Hfetch).
    split; [|split; [|by eapply loop_run_writes]].
    + destruct r as [o|]; [|done]. simpl. by apply loop_run_outcome in Hrun as [? _].
    + intros s Hs'. rewrite <- Hsym. by apply Hfetch.
Qed.

Lemma listed_item_is_downloadable_witness :
  "000001&平安銀行" ∈ em_items [("1", "平安銀行")]
  /\ Str.split "&" (Some 1) "000001&平安銀行" = ["000001"; "平安銀行"]
  /\ exists o w' t,
      download_one app_dir "000001&平安銀行" blank_world = (Ok o, w', t)
      /\ code o = "000001"
      /\ (forall s, Fetch s ∈ t -> s = "000001.SZ")
      /\ (forall q, ToCsv q ∈ t -> q = out_path_of app_dir "000001" "平安銀行").
Proof.
  apply (listed_item_is_downloadable [("1", "平安銀行")] "1" "平安銀行"
           app_dir blank_world).
  - left.
  - reflexivity.
  - reflexivity.
Defined.

(** ** The steps of [get_cn_list] *)

Section Steps.

Variable date_of : float -> Z.


(** The three ways of an import. *)
Lemma import_empty h : import "" h = (Raised ValueError, h, []).
Proof. reflexivity. Qed.






















End Steps.

(** ** Installing a package *)


(** ** The theorems on the sample hosts *)







End ListerFacts.
